(** * Blackjack round engine: a shallow embedding of [game.py]

    The Python classes [Card], [Deck], [Hand], [Player] and [BlackjackGame]
    are rendered as modules of the same names.  Python integers are [Z];
    lists are [list] in Python order (index 0 first, [pop()] takes the last
    element); mutation is explicit state passing; an uncaught Python
    exception is an [outcome] that keeps the state reached when it was
    raised. *)

From Stdlib Require Import ZArith List String Bool Lia.
From stdpp Require Import base list.
Import ListNotations.
Local Open Scope Z_scope.

(** ** Enumerations *)

Inductive GameState := BETTING | PLAYER_TURN | DEALER_TURN | ROUND_OVER | GAME_OVER.

Inductive RoundResult := VICTORY | LOSS | TIE | BLACKJACK | BUSTED.

Inductive Suit := Hearts | Diamonds | Clubs | Spades.

(** The thirteen rank strings ['2'] .. ['10'], ['J'], ['Q'], ['K'], ['A']. *)
Inductive Rank :=
  | Two | Three | Four | Five | Six | Seven | Eight | Nine | Ten
  | Jack | Queen | King | Ace.

Definition GameState_eqb (a b : GameState) : bool :=
  match a, b with
  | BETTING, BETTING | PLAYER_TURN, PLAYER_TURN | DEALER_TURN, DEALER_TURN
  | ROUND_OVER, ROUND_OVER | GAME_OVER, GAME_OVER => true
  | _, _ => false
  end.

(** ** Outcomes of a call *)

Inductive exn := IndexError.

(** [Ret a]: the call returned [a]; [Raise e]: it raised [e];
    [OutOfFuel]: the bounded rendering of a [while] loop was cut short
    (shown below never to happen). *)
Inductive outcome (A : Type) :=
  | Ret (a : A)
  | Raise (e : exn)
  | OutOfFuel.
Arguments Ret {A} a.
Arguments Raise {A} e.
Arguments OutOfFuel {A}.

(** [list.pop()]: the last element and the list without it. *)
Fixpoint pop {A : Type} (l : list A) : option (A * list A) :=
  match l with
  | [] => None
  | x :: t =>
      match pop t with
      | None => Some (x, [])
      | Some (y, t') => Some (y, x :: t')
      end
  end.

Fixpoint sum_Z (l : list Z) : Z :=
  match l with
  | [] => 0
  | x :: t => x + sum_Z t
  end.

(** ** Card *)

Module Card.

Record t := mk { suit : Suit; rank : Rank }.

Definition rank_str (r : Rank) : string :=
  match r with
  | Two => "2" | Three => "3" | Four => "4" | Five => "5" | Six => "6"
  | Seven => "7" | Eight => "8" | Nine => "9" | Ten => "10"
  | Jack => "J" | Queen => "Q" | King => "K" | Ace => "A"
  end%string.

Definition suit_name (s : Suit) : string :=
  match s with
  | Hearts => "Hearts" | Diamonds => "Diamonds"
  | Clubs => "Clubs" | Spades => "Spades"
  end%string.

(** [s[0]] on the suit names, none of which is empty. *)
Definition first_char (s : string) : string :=
  match s with
  | EmptyString => EmptyString
  | String a _ => String a EmptyString
  end.

(** [int(s)] on a string of decimal digits. *)
Definition digit (a : Ascii.ascii) : Z := Z.of_nat (Ascii.nat_of_ascii a) - 48.

Fixpoint int_acc (acc : Z) (s : string) : Z :=
  match s with
  | EmptyString => acc
  | String a s' => int_acc (10 * acc + digit a) s'
  end.

Definition int (s : string) : Z := int_acc 0 s.

Definition value (c : t) : Z :=
  match rank c with
  | Jack | Queen | King => 10
  | Ace => 11
  | r => int (rank_str r)
  end.

Definition str (c : t) : string :=
  String.append (rank_str (rank c)) (first_char (suit_name (suit c))).

End Card.

(** ** Deck *)

Module Deck.

(** The generator of [random] is process-wide state that only
    [Deck.shuffle] reads.  It is an arbitrary tape of naturals, carried in
    the deck: [randbelow n] reads the head of the tape modulo [n]. *)
Definition Rng := nat -> nat.

Record t := mk { num_decks : Z; cards : list Card.t; entropy : Rng }.

Definition suits : list Suit := [Hearts; Diamonds; Clubs; Spades].

Definition ranks : list Rank :=
  [Two; Three; Four; Five; Six; Seven; Eight; Nine; Ten; Jack; Queen; King; Ace].

Definition one_deck : list Card.t :=
  flat_map (fun s => map (fun r => Card.mk s r) ranks) suits.

(** [range(num_decks)] is empty for [num_decks <= 0]. *)
Definition _build_deck (d : t) : t :=
  mk (num_decks d)
     (List.concat (repeat one_deck (Z.to_nat (num_decks d))))
     (entropy d).

Definition randbelow (n : nat) (r : Rng) : nat * Rng :=
  ((r 0%nat mod n)%nat, fun k => r (S k)).

(** [x[i], x[j] = x[j], x[i]] *)
Definition swap {A : Type} (i j : nat) (l : list A) : list A :=
  match l !! i, l !! j with
  | Some a, Some b => <[j:=a]> (<[i:=b]> l)
  | _, _ => l
  end.

(** [for i in reversed(range(1, len(x))): j = randbelow(i + 1); swap],
    with [i] running down from its argument to 1. *)
Fixpoint shuffle_from (i : nat) (l : list Card.t) (r : Rng) : list Card.t * Rng :=
  match i with
  | O => (l, r)
  | S i' =>
      let (j, r') := randbelow (S i) r in
      shuffle_from i' (swap i j l) r'
  end.

Definition shuffle (d : t) : t :=
  let (l, r) := shuffle_from (length (cards d) - 1) (cards d) (entropy d) in
  mk (num_decks d) l r.

Definition draw (d : t) : outcome Card.t * t :=
  let d1 := match cards d with
            | [] => shuffle (_build_deck d)
            | _ :: _ => d
            end in
  match pop (cards d1) with
  | Some (c, rest) => (Ret c, mk (num_decks d1) rest (entropy d1))
  | None => (Raise IndexError, d1)
  end.

Definition len (d : t) : Z := Z.of_nat (length (cards d)).

(** [Deck(num_decks)] with the generator in state [r]. *)
Definition init (n : Z) (r : Rng) : t := shuffle (_build_deck (mk n [] r)).

End Deck.

(** ** Hand *)

Module Hand.

Record t := mk { cards : list Card.t; bet : Z }.

Definition init : t := mk [] 0.

Definition is_ace (c : Card.t) : bool :=
  match Card.rank c with Ace => true | _ => false end.

(** [while value > 21 and aces > 0: value -= 10; aces -= 1] *)
Fixpoint soften (aces : nat) (value : Z) : Z :=
  match aces with
  | O => value
  | S aces' => if 21 <? value then soften aces' (value - 10) else value
  end.

Definition raw (h : t) : Z := sum_Z (map Card.value (cards h)).

Definition aces (h : t) : nat :=
  list_sum (map (fun _ => 1%nat) (List.filter is_ace (cards h))).

Definition value (h : t) : Z := soften (aces h) (raw h).

Definition is_blackjack (h : t) : bool :=
  (length (cards h) =? 2)%nat && (value h =? 21).

Definition is_busted (h : t) : bool := 21 <? value h.

Definition add_card (c : Card.t) (h : t) : t := mk (cards h ++ [c]) (bet h).

Definition clear (h : t) : t := mk [] 0.

Definition str (h : t) : string := String.concat " " (map Card.str (cards h)).

End Hand.

(** ** Player *)

Module Player.

Record t := mk { name : string; bankroll : Z; hand : Hand.t }.

Definition init (n : string) (b : Z) : t := mk n b Hand.init.

Definition place_bet (amount : Z) (p : t) : bool * t :=
  if amount <=? bankroll p then
    (true, mk (name p) (bankroll p - amount) (Hand.mk (Hand.cards (hand p)) amount))
  else (false, p).

Definition reset_hand (p : t) : t :=
  mk (name p) (bankroll p) (Hand.clear (hand p)).

Definition credit (x : Z) (p : t) : t :=
  mk (name p) (bankroll p + x) (hand p).

Definition give (c : Card.t) (p : t) : t :=
  mk (name p) (bankroll p) (Hand.add_card c (hand p)).

End Player.

(** ** BlackjackGame *)

Module BlackjackGame.

Record t := mk {
  deck : Deck.t;
  player : Player.t;
  dealer_hand : Hand.t;
  min_bet : Z;
  max_bet : Z;
  game_state : GameState;
  round_result : option RoundResult
}.

(** [BlackjackGame(num_decks, min_bet, max_bet)]; the player starts with
    bankroll 1000. *)
Definition init (n lo hi : Z) (r : Deck.Rng) : t :=
  mk (Deck.init n r) (Player.init "Player"%string 1000) Hand.init lo hi BETTING None.

(** A method is a function from the object to an outcome and the object
    as the call left it. *)
Definition M (A : Type) : Type := t -> outcome A * t.

Definition ret {A : Type} (a : A) : M A := fun g => (Ret a, g).

Definition bind {A B : Type} (m : M A) (k : A -> M B) : M B :=
  fun g =>
    match m g with
    | (Ret a, g') => k a g'
    | (Raise e, g') => (Raise e, g')
    | (OutOfFuel, g') => (OutOfFuel, g')
    end.

Local Notation "x <- m ;; k" := (bind m (fun x => k))
  (at level 90, m at level 89, right associativity).
Local Notation "m ;;; k" := (bind m (fun _ => k))
  (at level 90, right associativity).

(** Field assignments. *)
Definition set_deck (d : Deck.t) (g : t) : t :=
  mk d (player g) (dealer_hand g) (min_bet g) (max_bet g) (game_state g) (round_result g).

Definition set_player (p : Player.t) (g : t) : t :=
  mk (deck g) p (dealer_hand g) (min_bet g) (max_bet g) (game_state g) (round_result g).

Definition set_dealer_hand (h : Hand.t) (g : t) : t :=
  mk (deck g) (player g) h (min_bet g) (max_bet g) (game_state g) (round_result g).

Definition set_game_state (s : GameState) (g : t) : t :=
  mk (deck g) (player g) (dealer_hand g) (min_bet g) (max_bet g) s (round_result g).

Definition set_round_result (r : option RoundResult) (g : t) : t :=
  mk (deck g) (player g) (dealer_hand g) (min_bet g) (max_bet g) (game_state g) r.

Definition modify (f : t -> t) : M unit := fun g => (Ret tt, f g).

(** [self.deck.draw()] *)
Definition draw : M Card.t :=
  fun g => let (o, d) := Deck.draw (deck g) in (o, set_deck d g).

(** [self.player.hand.add_card(self.deck.draw())] *)
Definition deal_player : M unit :=
  c <- draw ;; modify (fun g => set_player (Player.give c (player g)) g).

(** [self.dealer_hand.add_card(self.deck.draw())] *)
Definition deal_dealer : M unit :=
  c <- draw ;; modify (fun g => set_dealer_hand (Hand.add_card c (dealer_hand g)) g).

(** [self.player.bankroll += x] *)
Definition credit (x : Z) : M unit :=
  modify (fun g => set_player (Player.credit x (player g)) g).

(** [int(bet * 2.5)]: the product truncated toward zero.  The float
    product is exact for every bet below 2^50 in magnitude. *)
Definition int_times_2_5 (bet : Z) : Z := Z.quot (bet * 5) 2.

Definition player_bet (g : t) : Z := Hand.bet (Player.hand (player g)).

Definition _handle_blackjack : M unit :=
  fun g =>
    match Hand.cards (dealer_hand g) with
    | [] => (Raise IndexError, g)
    | up :: _ =>
        ((if 10 <=? Card.value up then
            if (length (Hand.cards (dealer_hand g)) =? 2)%nat
               && (Hand.value (dealer_hand g) =? 21)
            then
              modify (set_round_result (Some TIE)) ;;;
              credit (player_bet g)
            else
              modify (set_round_result (Some BLACKJACK)) ;;;
              credit (int_times_2_5 (player_bet g))
          else
            modify (set_round_result (Some BLACKJACK)) ;;;
            credit (int_times_2_5 (player_bet g))) ;;;
         modify (set_game_state ROUND_OVER)) g
    end.

Definition _start_round : M unit :=
  modify (fun g => set_player (Player.reset_hand (player g)) g) ;;;
  modify (fun g => set_dealer_hand (Hand.clear (dealer_hand g)) g) ;;;
  deal_player ;;;
  deal_dealer ;;;
  deal_player ;;;
  deal_dealer ;;;
  modify (set_game_state PLAYER_TURN) ;;;
  fun g =>
    if Hand.is_blackjack (Player.hand (player g)) then _handle_blackjack g
    else (Ret tt, g).

Definition place_bet (amount : Z) : M bool :=
  fun g =>
    if negb (GameState_eqb (game_state g) BETTING) then (Ret false, g)
    else if (amount <? min_bet g) || (amount >? max_bet g) then (Ret false, g)
    else
      let (ok, p) := Player.place_bet amount (player g) in
      if ok then (_start_round ;;; ret true) (set_player p g)
      else (Ret false, g).

Definition hit : M bool :=
  fun g =>
    if negb (GameState_eqb (game_state g) PLAYER_TURN) then (Ret false, g)
    else
      (deal_player ;;;
       (fun g =>
          if Hand.is_busted (Player.hand (player g)) then
            (modify (set_round_result (Some BUSTED)) ;;;
             modify (set_game_state ROUND_OVER)) g
          else (Ret tt, g)) ;;;
       ret true) g.

Definition _determine_round_result : M unit :=
  fun g =>
    let player_value := Hand.value (Player.hand (player g)) in
    let dealer_value := Hand.value (dealer_hand g) in
    ((if Hand.is_busted (Player.hand (player g)) then
        modify (set_round_result (Some BUSTED))
      else if Hand.is_busted (dealer_hand g) then
        modify (set_round_result (Some VICTORY)) ;;;
        credit (player_bet g * 2)
      else if player_value >? dealer_value then
        modify (set_round_result (Some VICTORY)) ;;;
        credit (player_bet g * 2)
      else if player_value <? dealer_value then
        modify (set_round_result (Some LOSS))
      else
        modify (set_round_result (Some TIE)) ;;;
        credit (player_bet g)) ;;;
     modify (set_game_state ROUND_OVER)) g.

(** [while self.dealer_hand.value < 17: self.dealer_hand.add_card(self.deck.draw())],
    unrolled at most [fuel] times. *)
Fixpoint dealer_loop (fuel : nat) : M unit :=
  fun g =>
    if Hand.value (dealer_hand g) <? 17 then
      match fuel with
      | O => (OutOfFuel, g)
      | S fuel' => (deal_dealer ;;; dealer_loop fuel') g
      end
    else (Ret tt, g).

(** Every card adds at least one to the hard total, so the loop body runs
    at most 17 times ([dealer_loop_total] below). *)
Definition dealer_fuel : nat := 17.

Definition _dealer_play : M unit :=
  modify (set_game_state DEALER_TURN) ;;;
  dealer_loop dealer_fuel ;;;
  _determine_round_result.

Definition stand : M bool :=
  fun g =>
    if negb (GameState_eqb (game_state g) PLAYER_TURN) then (Ret false, g)
    else (_dealer_play ;;; ret true) g.

Definition start_new_round : M unit :=
  fun g =>
    if negb (GameState_eqb (game_state g) ROUND_OVER) then (Ret tt, g)
    else (modify (set_game_state BETTING) ;;;
          modify (set_round_result None)) g.

Record GameInfo := mkInfo {
  info_game_state : GameState;
  info_round_result : option RoundResult;
  info_player_bankroll : Z;
  info_player_hand : string;
  info_player_value : Z;
  info_dealer_hand : string;
  info_dealer_value : Z;
  info_dealer_up_card : option string;
  info_can_hit : bool;
  info_can_stand : bool;
  info_deck_size : Z
}.

Definition get_game_info : M GameInfo :=
  fun g =>
    (Ret (mkInfo
            (game_state g)
            (round_result g)
            (Player.bankroll (player g))
            (Hand.str (Player.hand (player g)))
            (Hand.value (Player.hand (player g)))
            (Hand.str (dealer_hand g))
            (Hand.value (dealer_hand g))
            (match Hand.cards (dealer_hand g) with
             | [] => None
             | c :: _ => Some (Card.str c)
             end)
            (GameState_eqb (game_state g) PLAYER_TURN
             && negb (Hand.is_busted (Player.hand (player g))))
            (GameState_eqb (game_state g) PLAYER_TURN)
            (Deck.len (deck g))),
     g).

(** The public operations, and a run of them on one engine.  A call that
    raises leaves the engine as it was when the exception was raised; the
    caller may go on using it. *)
Inductive op :=
  | PlaceBet (amount : Z)
  | Hit
  | Stand
  | StartNewRound
  | GetGameInfo.

Definition step (o : op) (g : t) : t :=
  match o with
  | PlaceBet amount => snd (place_bet amount g)
  | Hit => snd (hit g)
  | Stand => snd (stand g)
  | StartNewRound => snd (start_new_round g)
  | GetGameInfo => snd (get_game_info g)
  end.

Definition run (ops : list op) (g : t) : t := fold_left (fun g o => step o g) ops g.

(** The engines a program can hold: built by the constructor, with any
    starting bankroll, then driven through the public operations. *)
Inductive reachable : t -> Prop :=
  | reach_init n lo hi r b :
      reachable (set_player (Player.init "Player"%string b) (init n lo hi r))
  | reach_step o g : reachable g -> reachable (step o g).

End BlackjackGame.

(** ** Auxiliary notions used in the statements *)

(** What the shoe looks like just before the [pop] of [draw]. *)
Definition replenished (d : Deck.t) : Deck.t :=
  match Deck.cards d with
  | [] => Deck.shuffle (Deck._build_deck d)
  | _ :: _ => d
  end.

(** A shoe can supply [n] more cards when it holds that many, or when it
    can be rebuilt to a non-empty one. *)
Definition supplies (n : nat) (d : Deck.t) : Prop :=
  (n <= length (Deck.cards d))%nat \/ 1 <= Deck.num_decks d.

(** The point table of a rank: face cards 10, the ace 11, a number card
    its number. *)
Definition points (r : Rank) : Z :=
  match r with
  | Two => 2 | Three => 3 | Four => 4 | Five => 5 | Six => 6
  | Seven => 7 | Eight => 8 | Nine => 9 | Ten => 10
  | Jack => 10 | Queen => 10 | King => 10
  | Ace => 11
  end.

(** The total of a list of cards with every ace counted as 11. *)
Definition raw_total (l : list Card.t) : Z :=
  sum_Z (map (fun c => points (Card.rank c)) l).

(** The number of aces in a list of cards. *)
Definition ace_count (l : list Card.t) : nat :=
  length (List.filter Hand.is_ace l).

(** The total with every ace counted as 1. *)
Definition hard_total (l : list Card.t) : Z :=
  raw_total l - 10 * Z.of_nat (ace_count l).

(** Bet, bankroll and hands of an engine. *)
Definition bankroll (g : BlackjackGame.t) : Z :=
  Player.bankroll (BlackjackGame.player g).

Definition player_cards (g : BlackjackGame.t) : list Card.t :=
  Hand.cards (Player.hand (BlackjackGame.player g)).

Definition dealer_cards (g : BlackjackGame.t) : list Card.t :=
  Hand.cards (BlackjackGame.dealer_hand g).

(** The engine can still deal: it has a deck to rebuild from, or it is an
    engine without cards that never left BETTING. *)
Definition playable (g : BlackjackGame.t) : Prop :=
  1 <= Deck.num_decks (BlackjackGame.deck g)
  \/ (Deck.cards (BlackjackGame.deck g) = []
      /\ BlackjackGame.game_state g = BETTING).

(** The value of a list of cards as a hand counts it. *)
Definition cards_value (l : list Card.t) : Z := Hand.value (Hand.mk l 0).

(** What a run of the dealer loop may change: the shoe (not its
    configuration) and the cards of the dealer. *)
Definition dealer_only (g g' : BlackjackGame.t) : Prop :=
  BlackjackGame.player g' = BlackjackGame.player g
  /\ BlackjackGame.min_bet g' = BlackjackGame.min_bet g
  /\ BlackjackGame.max_bet g' = BlackjackGame.max_bet g
  /\ BlackjackGame.game_state g' = BlackjackGame.game_state g
  /\ BlackjackGame.round_result g' = BlackjackGame.round_result g
  /\ Deck.num_decks (BlackjackGame.deck g') = Deck.num_decks (BlackjackGame.deck g)
  /\ Hand.bet (BlackjackGame.dealer_hand g') = Hand.bet (BlackjackGame.dealer_hand g).

(** The dealer's hand grew by [drawn], each card taken while the hand was
    worth less than 17. *)
Definition drew_below_17 (g g' : BlackjackGame.t) (drawn : list Card.t) : Prop :=
  dealer_cards g' = dealer_cards g ++ drawn
  /\ forall n : nat, (n < length drawn)%nat ->
       cards_value (dealer_cards g ++ take n drawn) < 17.

(** The engine after the four deals of [_start_round], before the
    blackjack test. *)
Definition dealt (g : BlackjackGame.t) (c1 c2 c3 c4 : Card.t) (d : Deck.t) : BlackjackGame.t :=
  BlackjackGame.mk d
     (Player.mk (Player.name (BlackjackGame.player g)) (Player.bankroll (BlackjackGame.player g))
                (Hand.mk [c1; c3] 0))
     (Hand.mk [c2; c4] 0)
     (BlackjackGame.min_bet g) (BlackjackGame.max_bet g) PLAYER_TURN (BlackjackGame.round_result g).

(** The standard settlement as the rules word it, for player value [p],
    dealer value [d] and wager [bet]: the result and the amount credited.
    A busted player is looked at first. *)
Definition settlement (p d bet : Z) : RoundResult * Z :=
  if 21 <? p then (BUSTED, 0)
  else if 21 <? d then (VICTORY, bet * 2)
  else if d <? p then (VICTORY, bet * 2)
  else if p <? d then (LOSS, 0)
  else (TIE, bet).

(** The bankroll moves in one of four ways: not at all, down by an accepted
    wager (the recorded bet is then 0), or up by the recorded bet or twice
    it (the recorded bet is then kept). *)
Definition bankroll_move (o : BlackjackGame.op) (g g' : BlackjackGame.t) : Prop :=
  (bankroll g' = bankroll g /\ (BlackjackGame.player_bet g' = BlackjackGame.player_bet g \/ BlackjackGame.player_bet g' = 0))
  \/ (exists amount, o = BlackjackGame.PlaceBet amount
        /\ BlackjackGame.min_bet g <= amount <= bankroll g
        /\ bankroll g' = bankroll g - amount /\ BlackjackGame.player_bet g' = 0)
  \/ (o = BlackjackGame.Stand /\ BlackjackGame.player_bet g' = BlackjackGame.player_bet g
      /\ (bankroll g' = bankroll g + BlackjackGame.player_bet g * 2
          \/ bankroll g' = bankroll g + BlackjackGame.player_bet g)).

(** ** Example engines *)

(** A generator tape that always answers 0, and one that counts up. *)
Definition tape_zero : Deck.Rng := fun _ => 0%nat.

Definition tape_count : Deck.Rng := fun n => n.

(** A six-deck engine in BETTING with bankroll 1000, limits 10 and 500,
    whose shoe ends with the given cards (the last one is drawn first). *)
Definition engine_with_shoe (shoe : list Card.t) : BlackjackGame.t :=
  BlackjackGame.mk (Deck.mk 6 shoe tape_zero)
                   (Player.init "Player"%string 1000) Hand.init
                   10 500 BETTING None.

(** The player is dealt the ace of spades and the king of hearts, the
    dealer the seven of diamonds and the nine of clubs. *)
Definition engine_natural : BlackjackGame.t :=
  engine_with_shoe
    [Card.mk Hearts Two; Card.mk Clubs Nine; Card.mk Hearts King;
     Card.mk Diamonds Seven; Card.mk Spades Ace].

(** Player and dealer are both dealt a ten and a nine. *)
Definition engine_push : BlackjackGame.t :=
  engine_with_shoe
    [Card.mk Hearts Two; Card.mk Hearts Nine; Card.mk Spades Nine;
     Card.mk Hearts Ten; Card.mk Spades Ten].

(** Player and dealer are both dealt an ace and a king; the dealer shows
    the ace. *)
Definition engine_two_naturals : BlackjackGame.t :=
  engine_with_shoe
    [Card.mk Hearts Two; Card.mk Clubs King; Card.mk Hearts King;
     Card.mk Diamonds Ace; Card.mk Spades Ace].

(** The player is dealt two tens, the dealer a ten and a seven. *)
Definition engine_win : BlackjackGame.t :=
  engine_with_shoe
    [Card.mk Hearts Two; Card.mk Hearts Seven; Card.mk Spades Queen;
     Card.mk Hearts Ten; Card.mk Spades Ten].

(** [BlackjackGame(num_decks=0)]: an engine whose shoe has no cards and
    cannot be rebuilt. *)
Definition engine_no_decks : BlackjackGame.t :=
  BlackjackGame.init 0 10 500 tape_zero.

(** [BlackjackGame(num_decks=1)] and the same engine after a bet of 100. *)
Definition engine_one_deck : BlackjackGame.t :=
  BlackjackGame.set_player (Player.init "Player"%string 1000)
                           (BlackjackGame.init 1 10 500 tape_count).

Definition engine_in_round : BlackjackGame.t :=
  BlackjackGame.step (BlackjackGame.PlaceBet 100) engine_one_deck.

(** ** Notions used in the further properties *)

(** Two cards that make a natural: an ace and a card worth ten, in either
    order. *)
Definition natural_pair (c1 c2 : Card.t) : bool :=
  (Hand.is_ace c1 && (Card.value c2 =? 10))
  || ((Card.value c1 =? 10) && Hand.is_ace c2).

(** [k] calls of [draw] in a row: what each returned, and the shoe left. *)
Fixpoint draw_many (k : nat) (d : Deck.t) : list (outcome Card.t) * Deck.t :=
  match k with
  | O => ([], d)
  | S k' =>
      let (o, d1) := Deck.draw d in
      let (os, d2) := draw_many k' d1 in
      (o :: os, d2)
  end.

(** [k] draws from [d] all return a card, keep the number of decks and
    leave [m] cards in the shoe. *)
Definition draws_leave (k : nat) (d : Deck.t) (m : nat) : Prop :=
  Forall (fun o => exists c, o = Ret c) (fst (draw_many k d))
  /\ Deck.num_decks (snd (draw_many k d)) = Deck.num_decks d
  /\ length (Deck.cards (snd (draw_many k d))) = m.

(** A shoe never holds more than the cards of its decks. *)
Definition shoe_bounded (d : Deck.t) : Prop :=
  (length (Deck.cards d) <= 52 * Z.to_nat (Deck.num_decks d))%nat.

(** The settings of an engine: limits, number of decks, player name. *)
Definition same_config (g g' : BlackjackGame.t) : Prop :=
  BlackjackGame.min_bet g' = BlackjackGame.min_bet g
  /\ BlackjackGame.max_bet g' = BlackjackGame.max_bet g
  /\ Deck.num_decks (BlackjackGame.deck g') = Deck.num_decks (BlackjackGame.deck g)
  /\ Player.name (BlackjackGame.player g') = Player.name (BlackjackGame.player g).

(** Every exit of the method [m], returning or raising, relates the engine
    before to the engine after by [R]. *)
Definition preserves {A : Type} (R : BlackjackGame.t -> BlackjackGame.t -> Prop)
    (m : BlackjackGame.M A) : Prop :=
  forall g o g', m g = (o, g') -> R g g'.

(** The states in which an operation is let past its guard. *)
Definition accepts (o : BlackjackGame.op) (s : GameState) : bool :=
  match o with
  | BlackjackGame.PlaceBet _ => GameState_eqb s BETTING
  | BlackjackGame.Hit | BlackjackGame.Stand => GameState_eqb s PLAYER_TURN
  | BlackjackGame.StartNewRound => GameState_eqb s ROUND_OVER
  | BlackjackGame.GetGameInfo => false
  end.

(** The moves of the state machine: a bet leaves BETTING for PLAYER_TURN
    or ROUND_OVER, a hit stays in PLAYER_TURN or ends the round, a stand
    ends the round, a new round returns to BETTING; anything else stays
    where it is. *)
Definition transition (o : BlackjackGame.op) (s s' : GameState) : bool :=
  match o, s, s' with
  | BlackjackGame.PlaceBet _, BETTING, (PLAYER_TURN | ROUND_OVER) => true
  | BlackjackGame.Hit, PLAYER_TURN, ROUND_OVER => true
  | BlackjackGame.Stand, PLAYER_TURN, ROUND_OVER => true
  | BlackjackGame.StartNewRound, ROUND_OVER, BETTING => true
  | BlackjackGame.Stand, PLAYER_TURN, PLAYER_TURN => false
  | BlackjackGame.StartNewRound, ROUND_OVER, ROUND_OVER => false
  | _, _, _ => GameState_eqb s s'
  end.

(** What holds of an engine between two calls, by state. *)
Definition well_formed (g : BlackjackGame.t) : Prop :=
  BlackjackGame.player_bet g = 0
  /\ match BlackjackGame.game_state g with
     | BETTING => BlackjackGame.round_result g = None
     | PLAYER_TURN =>
         BlackjackGame.round_result g = None
         /\ length (dealer_cards g) = 2%nat
         /\ (2 <= length (player_cards g))%nat
         /\ Hand.value (Player.hand (BlackjackGame.player g)) <= 21
     | ROUND_OVER => BlackjackGame.round_result g <> None
     | DEALER_TURN | GAME_OVER => False
     end.

(** * Properties *)

Arguments Deck.draw : simpl never.

(** ** Lists *)

Lemma pop_snoc {A : Type} (l : list A) (x : A) : pop (l ++ [x]) = Some (x, l).
Proof.
  induction l as [|y l IH]; simpl; [reflexivity|].
  now rewrite IH.
Qed.

Lemma pop_None {A : Type} (l : list A) : pop l = None -> l = [].
Proof.
  destruct l as [|x l]; simpl; [reflexivity|].
  destruct (pop l) as [[y t']|]; discriminate.
Qed.

Lemma pop_Some {A : Type} (l : list A) (x : A) (r : list A) :
  pop l = Some (x, r) -> l = r ++ [x].
Proof.
  revert x r. induction l as [|y l IH]; simpl; intros x r H; [discriminate|].
  destruct (pop l) as [[z t']|] eqn:E.
  - inversion H; subst. simpl. f_equal. now apply IH.
  - inversion H; subst. apply pop_None in E. now subst.
Qed.

Lemma pop_nonempty {A : Type} (l : list A) :
  l <> [] -> exists x r, pop l = Some (x, r) /\ l = r ++ [x].
Proof.
  intros Hl. destruct (pop l) as [[x r]|] eqn:E.
  - exists x, r. split; [reflexivity|]. now apply pop_Some.
  - apply pop_None in E. contradiction.
Qed.

(** ** Deck *)

Lemma one_deck_length : length Deck.one_deck = 52%nat.
Proof. reflexivity. Qed.

Lemma concat_repeat_length {A : Type} (l : list A) (n : nat) :
  length (List.concat (repeat l n)) = (n * length l)%nat.
Proof.
  induction n as [|n IH]; simpl; [reflexivity|].
  rewrite length_app, IH. reflexivity.
Qed.

Lemma build_deck_length (d : Deck.t) :
  length (Deck.cards (Deck._build_deck d)) = (52 * Z.to_nat (Deck.num_decks d))%nat.
Proof.
  unfold Deck._build_deck. simpl.
  rewrite concat_repeat_length, one_deck_length. lia.
Qed.

Lemma swap_length {A : Type} (i j : nat) (l : list A) :
  length (Deck.swap i j l) = length l.
Proof.
  unfold Deck.swap.
  destruct (l !! i); [|reflexivity].
  destruct (l !! j); [|reflexivity].
  now rewrite !length_insert.
Qed.

Lemma insert_cons_perm {A : Type} (l : list A) (j : nat) (x b : A) :
  l !! j = Some b -> b :: <[j:=x]> l ≡ₚ x :: l.
Proof.
  revert j. induction l as [|y l IH]; intros j H; [discriminate|].
  destruct j as [|j]; simpl in *.
  - inversion H; subst. apply perm_swap.
  - rewrite perm_swap. rewrite (IH j H). apply perm_swap.
Qed.

Lemma swap_perm {A : Type} (i j : nat) (l : list A) : Deck.swap i j l ≡ₚ l.
Proof.
  unfold Deck.swap.
  destruct (l !! i) as [a|] eqn:Ei; [|reflexivity].
  destruct (l !! j) as [b|] eqn:Ej; [|reflexivity].
  revert i j Ei Ej. induction l as [|x l IH]; intros i j Ei Ej; [discriminate|].
  destruct i as [|i], j as [|j]; simpl in *.
  - inversion Ei; inversion Ej; subst. reflexivity.
  - inversion Ei; subst. now apply insert_cons_perm.
  - inversion Ej; subst. now apply insert_cons_perm.
  - constructor. now apply IH.
Qed.

Lemma shuffle_from_perm (i : nat) (l : list Card.t) (r : Deck.Rng) :
  fst (Deck.shuffle_from i l r) ≡ₚ l.
Proof.
  revert l r. induction i as [|i IH]; intros l r; simpl; [reflexivity|].
  rewrite IH. apply swap_perm.
Qed.

Lemma shuffle_perm (d : Deck.t) : Deck.cards (Deck.shuffle d) ≡ₚ Deck.cards d.
Proof.
  unfold Deck.shuffle.
  pose proof (shuffle_from_perm (length (Deck.cards d) - 1) (Deck.cards d) (Deck.entropy d)) as H.
  destruct (Deck.shuffle_from _ _ _) as [l r]. exact H.
Qed.

Lemma shuffle_num_decks (d : Deck.t) :
  Deck.num_decks (Deck.shuffle d) = Deck.num_decks d.
Proof.
  unfold Deck.shuffle. now destruct (Deck.shuffle_from _ _ _).
Qed.

Lemma shuffle_length (d : Deck.t) :
  length (Deck.cards (Deck.shuffle d)) = length (Deck.cards d).
Proof. apply Permutation_length, shuffle_perm. Qed.

Lemma shuffle_nil (d : Deck.t) : Deck.cards d = [] -> Deck.shuffle d = d.
Proof.
  destruct d as [n l r]; simpl. intros ->. reflexivity.
Qed.

Lemma replenished_num_decks (d : Deck.t) :
  Deck.num_decks (replenished d) = Deck.num_decks d.
Proof.
  unfold replenished. destruct (Deck.cards d); [|reflexivity].
  now rewrite shuffle_num_decks.
Qed.

Lemma draw_unfold (d : Deck.t) :
  Deck.draw d =
  match pop (Deck.cards (replenished d)) with
  | Some (c, rest) =>
      (Ret c, Deck.mk (Deck.num_decks d) rest (Deck.entropy (replenished d)))
  | None => (Raise IndexError, replenished d)
  end.
Proof.
  unfold Deck.draw. fold (replenished d).
  destruct (pop _) as [[c rest]|]; [|reflexivity].
  now rewrite replenished_num_decks.
Qed.

Lemma draw_supplies (n : nat) (d : Deck.t) :
  supplies (S n) d ->
  exists c d', Deck.draw d = (Ret c, d')
               /\ Deck.cards (replenished d) = Deck.cards d' ++ [c]
               /\ Deck.num_decks d' = Deck.num_decks d
               /\ Deck.entropy d' = Deck.entropy (replenished d)
               /\ supplies n d'.
Proof.
  intros Hs. rewrite draw_unfold.
  assert (Hne : Deck.cards (replenished d) <> []).
  { unfold replenished. destruct (Deck.cards d) as [|x l] eqn:E.
    - intros Hnil. apply (f_equal (@length _)) in Hnil.
      rewrite shuffle_length, build_deck_length in Hnil. simpl in Hnil.
      unfold supplies in Hs. rewrite E in Hs. simpl in Hs, Hnil. lia.
    - rewrite E. discriminate. }
  destruct (pop_nonempty _ Hne) as (c & rest & Hp & Hl).
  rewrite Hp. exists c, (Deck.mk (Deck.num_decks d) rest (Deck.entropy (replenished d))).
  simpl. repeat split; try assumption.
  unfold supplies in *. simpl.
  destruct Hs as [Hs|Hs]; [left|now right].
  assert (Hd : Deck.cards (replenished d) = Deck.cards d).
  { unfold replenished. destruct (Deck.cards d) eqn:E; [simpl in Hs; lia|now rewrite E]. }
  rewrite Hd in Hl. rewrite Hl, length_app in Hs. simpl in Hs. lia.
Qed.

Lemma draw_exhausted (d : Deck.t) :
  Deck.cards d = [] -> Deck.num_decks d <= 0 ->
  Deck.draw d = (Raise IndexError, d).
Proof.
  intros Hc Hn. rewrite draw_unfold.
  assert (Hr : replenished d = d).
  { unfold replenished. rewrite Hc.
    assert (Hb : Deck._build_deck d = d).
    { destruct d as [n l r]; simpl in *. subst l. unfold Deck._build_deck; simpl.
      replace (Z.to_nat n) with 0%nat by lia. reflexivity. }
    rewrite Hb. now apply shuffle_nil. }
  rewrite Hr, Hc. reflexivity.
Qed.

(** ** Hand *)

Lemma card_value_points (c : Card.t) : Card.value c = points (Card.rank c).
Proof. destruct c as [s []]; reflexivity. Qed.

Lemma points_bounds (r : Rank) : 2 <= points r <= 11.
Proof. destruct r; simpl; lia. Qed.

Lemma raw_raw_total (h : Hand.t) : Hand.raw h = raw_total (Hand.cards h).
Proof.
  unfold Hand.raw, raw_total. f_equal.
Qed.

Lemma aces_ace_count (h : Hand.t) : Hand.aces h = ace_count (Hand.cards h).
Proof.
  unfold Hand.aces, ace_count.
  induction (List.filter Hand.is_ace (Hand.cards h)) as [|c l IH]; simpl; congruence.
Qed.

Lemma value_unfold (h : Hand.t) :
  Hand.value h = Hand.soften (ace_count (Hand.cards h)) (raw_total (Hand.cards h)).
Proof. unfold Hand.value. now rewrite raw_raw_total, aces_ace_count. Qed.

(** The loop of [Hand.value] stops at the first total that is at most 21,
    or when the aces run out. *)
Lemma soften_greedy (a : nat) (v : Z) :
  exists k : nat,
    (k <= a)%nat
    /\ Hand.soften a v = v - 10 * Z.of_nat k
    /\ (forall j : nat, (j < k)%nat -> 21 < v - 10 * Z.of_nat j)
    /\ (21 < Hand.soften a v -> k = a).
Proof.
  revert v. induction a as [|a IH]; intros v; simpl.
  - exists 0%nat. repeat split; try lia.
  - destruct (21 <? v) eqn:E.
    + apply Z.ltb_lt in E.
      destruct (IH (v - 10)) as (k & Hk & Hv & Hj & Hs).
      exists (S k). split; [lia|]. split; [lia|]. split.
      * intros j Hlt. destruct j as [|j]; [lia|].
        specialize (Hj j). lia.
      * intros H. specialize (Hs H). lia.
    + apply Z.ltb_ge in E.
      exists 0%nat. repeat split; try lia.
Qed.

Lemma soften_lower (a : nat) (v : Z) : v - 10 * Z.of_nat a <= Hand.soften a v.
Proof.
  destruct (soften_greedy a v) as (k & Hk & Hv & _). lia.
Qed.

Lemma raw_total_snoc (l : list Card.t) (c : Card.t) :
  raw_total (l ++ [c]) = raw_total l + points (Card.rank c).
Proof.
  unfold raw_total. induction l as [|x l IH]; simpl in *; lia.
Qed.

Lemma ace_count_snoc (l : list Card.t) (c : Card.t) :
  ace_count (l ++ [c]) = (ace_count l + (if Hand.is_ace c then 1 else 0))%nat.
Proof.
  unfold ace_count. rewrite List.filter_app, length_app. simpl.
  now destruct (Hand.is_ace c).
Qed.

Lemma hard_total_snoc (l : list Card.t) (c : Card.t) :
  hard_total l + 1 <= hard_total (l ++ [c]).
Proof.
  unfold hard_total. rewrite raw_total_snoc, ace_count_snoc.
  destruct c as [s r]. unfold Hand.is_ace. simpl.
  destruct r; simpl; lia.
Qed.

Lemma hard_total_nonneg (l : list Card.t) : 0 <= hard_total l.
Proof.
  induction l as [|c l IH] using rev_ind.
  - unfold hard_total, raw_total, ace_count. simpl. lia.
  - pose proof (hard_total_snoc l c). lia.
Qed.

Lemma value_ge_hard (h : Hand.t) : hard_total (Hand.cards h) <= Hand.value h.
Proof. rewrite value_unfold. apply soften_lower. Qed.

Lemma value_cards_value (h : Hand.t) : Hand.value h = cards_value (Hand.cards h).
Proof. reflexivity. Qed.

(** ** Engine: the elementary steps *)

Import BlackjackGame.

Lemma GameState_eqb_eq (a b : GameState) : GameState_eqb a b = true <-> a = b.
Proof. destruct a, b; simpl; split; congruence. Qed.

Lemma GameState_eqb_neq (a b : GameState) : GameState_eqb a b = false <-> a <> b.
Proof. destruct a, b; simpl; split; congruence. Qed.

Lemma deal_player_ret (g : t) (c : Card.t) (d : Deck.t) :
  Deck.draw (deck g) = (Ret c, d) ->
  deal_player g =
  (Ret tt, mk d (Player.give c (player g)) (dealer_hand g)
              (min_bet g) (max_bet g) (game_state g) (round_result g)).
Proof.
  intros H. unfold deal_player, bind, draw, modify. now rewrite H.
Qed.

Lemma deal_dealer_ret (g : t) (c : Card.t) (d : Deck.t) :
  Deck.draw (deck g) = (Ret c, d) ->
  deal_dealer g =
  (Ret tt, mk d (player g) (Hand.add_card c (dealer_hand g))
              (min_bet g) (max_bet g) (game_state g) (round_result g)).
Proof.
  intros H. unfold deal_dealer, bind, draw, modify. now rewrite H.
Qed.

Lemma deal_player_raise (g : t) (e : exn) (d : Deck.t) :
  Deck.draw (deck g) = (Raise e, d) ->
  deal_player g = (Raise e, set_deck d g).
Proof.
  intros H. unfold deal_player, bind, draw. now rewrite H.
Qed.

Lemma deal_dealer_raise (g : t) (e : exn) (d : Deck.t) :
  Deck.draw (deck g) = (Raise e, d) ->
  deal_dealer g = (Raise e, set_deck d g).
Proof.
  intros H. unfold deal_dealer, bind, draw. now rewrite H.
Qed.

(** [draw] returns or raises [IndexError]; it keeps the configuration. *)
Lemma draw_cases (d : Deck.t) :
  (exists c d', Deck.draw d = (Ret c, d') /\ Deck.num_decks d' = Deck.num_decks d)
  \/ (exists d', Deck.draw d = (Raise IndexError, d')
                 /\ Deck.num_decks d' = Deck.num_decks d
                 /\ Deck.num_decks d <= 0).
Proof.
  destruct (Z_le_gt_dec 1 (Deck.num_decks d)) as [Hn|Hn].
  - left. destruct (draw_supplies 0 d) as (c & d' & H & _ & Hd & _); [now right|].
    now exists c, d'.
  - rewrite draw_unfold.
    destruct (pop (Deck.cards (replenished d))) as [[c rest]|].
    + left. now eexists _, _.
    + right. eexists. split; [reflexivity|].
      split; [apply replenished_num_decks|lia].
Qed.

(** The blackjack settlement, on any engine whose dealer holds a card:
    the credit is computed from the bet recorded in the player's hand. *)
Lemma handle_blackjack_spec (g : t) (up : Card.t) (rest : list Card.t) :
  dealer_cards g = up :: rest ->
  let tie := (10 <=? Card.value up)
             && ((length (dealer_cards g) =? 2)%nat
                 && (Hand.value (dealer_hand g) =? 21)) in
  _handle_blackjack g =
  (Ret tt,
   mk (deck g)
      (Player.credit (if tie then player_bet g else int_times_2_5 (player_bet g))
                     (player g))
      (dealer_hand g) (min_bet g) (max_bet g) ROUND_OVER
      (Some (if tie then TIE else BLACKJACK))).
Proof.
  unfold dealer_cards. intros Hc. unfold _handle_blackjack. rewrite Hc.
  rewrite <- Hc. simpl.
  destruct (10 <=? Card.value up); simpl;
    [destruct ((length (Hand.cards (dealer_hand g)) =? 2)%nat
               && (Hand.value (dealer_hand g) =? 21)); simpl|]; reflexivity.
Qed.

(** The standard settlement, on any engine: the decision order and the
    credit computed from the bet recorded in the player's hand. *)
Lemma determine_round_result_spec (g : t) :
  let verdict := settlement (Hand.value (Player.hand (player g)))
                            (Hand.value (dealer_hand g)) (player_bet g) in
  exists pl,
    _determine_round_result g =
    (Ret tt, mk (deck g) pl (dealer_hand g) (min_bet g) (max_bet g) ROUND_OVER
                (Some (fst verdict)))
    /\ Player.bankroll pl = bankroll g + snd verdict
    /\ Player.hand pl = Player.hand (player g)
    /\ Player.name pl = Player.name (player g).
Proof.
  unfold _determine_round_result, settlement, Hand.is_busted, bankroll. simpl.
  rewrite Z.gtb_ltb.
  destruct (21 <? Hand.value (Player.hand (player g))); simpl.
  { exists (player g). repeat split. simpl. lia. }
  destruct (21 <? Hand.value (dealer_hand g)); simpl.
  { eexists. split; [reflexivity|]. simpl. auto. }
  destruct (Hand.value (dealer_hand g) <? Hand.value (Player.hand (player g))); simpl.
  { eexists. split; [reflexivity|]. simpl. auto. }
  destruct (Hand.value (Player.hand (player g)) <? Hand.value (dealer_hand g)); simpl.
  { exists (player g). repeat split. simpl. lia. }
  eexists. split; [reflexivity|]. simpl. auto.
Qed.

Lemma settlement_credit (p d bet : Z) :
  snd (settlement p d bet) = 0 \/ snd (settlement p d bet) = bet * 2
  \/ snd (settlement p d bet) = bet.
Proof.
  unfold settlement.
  destruct (21 <? p); [auto|]. destruct (21 <? d); [auto|].
  destruct (d <? p); [auto|]. destruct (p <? d); auto.
Qed.

(** ** Engine: starting a round *)

Lemma start_round_dealt (g : t) (c1 c2 c3 c4 : Card.t) (d1 d2 d3 d4 : Deck.t) :
  Deck.draw (deck g) = (Ret c1, d1) ->
  Deck.draw d1 = (Ret c2, d2) ->
  Deck.draw d2 = (Ret c3, d3) ->
  Deck.draw d3 = (Ret c4, d4) ->
  _start_round g =
  if Hand.is_blackjack (Hand.mk [c1; c3] 0)
  then _handle_blackjack (dealt g c1 c2 c3 c4 d4)
  else (Ret tt, dealt g c1 c2 c3 c4 d4).
Proof.
  intros H1 H2 H3 H4.
  unfold _start_round, deal_player, deal_dealer, draw, bind, modify. simpl.
  rewrite H1. simpl. rewrite H2. simpl. rewrite H3. simpl. rewrite H4. simpl.
  reflexivity.
Qed.

(** The first thing [_start_round] does is to zero the recorded bet; when
    a draw raises, that is already done and the state is still BETTING
    if it was. *)
(** Closes the side conditions of [start_round_invariants]: a draw from an
    exhausted shoe raises at once and leaves the shoe as it was. *)
Ltac start_round_side :=
  repeat split; intros; try congruence; try lia;
  try match goal with
      | Hc : Deck.cards ?d = [], Hn : Deck.num_decks ?d <= 0,
        H1 : Deck.draw ?d = _ |- _ =>
          rewrite (draw_exhausted _ Hc Hn) in H1; inversion H1; subst;
          try assumption; try discriminate
      end.

Lemma start_round_invariants (g : t) :
  forall o g', _start_round g = (o, g') ->
    player_bet g' = 0
    /\ min_bet g' = min_bet g
    /\ max_bet g' = max_bet g
    /\ Deck.num_decks (deck g') = Deck.num_decks (deck g)
    /\ bankroll g' = bankroll g
    /\ o <> OutOfFuel
    /\ (forall e, o = Raise e ->
          Deck.num_decks (deck g) <= 0 /\ game_state g' = game_state g)
    /\ (Deck.cards (deck g) = [] -> Deck.num_decks (deck g) <= 0 ->
          Deck.cards (deck g') = [] /\ game_state g' = game_state g).
Proof.
  intros o g'.
  destruct (draw_cases (deck g)) as [(c1 & d1 & H1 & N1)|(d1 & H1 & N1 & L1)].
  2:{ unfold _start_round, deal_player, deal_dealer, draw, bind, modify. simpl.
      rewrite H1. simpl. intros E; inversion E; subst; clear E.
      unfold player_bet, bankroll; simpl. start_round_side. }
  destruct (draw_cases d1) as [(c2 & d2 & H2 & N2)|(d2 & H2 & N2 & L2)].
  2:{ unfold _start_round, deal_player, deal_dealer, draw, bind, modify. simpl.
      rewrite H1. simpl. rewrite H2. simpl. intros E; inversion E; subst; clear E.
      unfold player_bet, bankroll; simpl. start_round_side. }
  destruct (draw_cases d2) as [(c3 & d3 & H3 & N3)|(d3 & H3 & N3 & L3)].
  2:{ unfold _start_round, deal_player, deal_dealer, draw, bind, modify. simpl.
      rewrite H1. simpl. rewrite H2. simpl. rewrite H3. simpl.
      intros E; inversion E; subst; clear E.
      unfold player_bet, bankroll; simpl. start_round_side. }
  destruct (draw_cases d3) as [(c4 & d4 & H4 & N4)|(d4 & H4 & N4 & L4)].
  2:{ unfold _start_round, deal_player, deal_dealer, draw, bind, modify. simpl.
      rewrite H1. simpl. rewrite H2. simpl. rewrite H3. simpl. rewrite H4. simpl.
      intros E; inversion E; subst; clear E.
      unfold player_bet, bankroll; simpl. start_round_side. }
  rewrite (start_round_dealt g _ _ _ _ _ _ _ _ H1 H2 H3 H4).
  destruct (Hand.is_blackjack _).
  - rewrite (handle_blackjack_spec (dealt g c1 c2 c3 c4 d4) c2 [c4] eq_refl).
    intros E; inversion E; subst; clear E.
    unfold player_bet, bankroll; simpl. start_round_side.
    destruct (_ && _); [|change (int_times_2_5 0) with 0]; lia.
  - intros E; inversion E; subst; clear E.
    unfold player_bet, bankroll; simpl. start_round_side.
Qed.

(** ** Engine: placing a bet *)

Lemma place_bet_rejected (amount : Z) (g : t) :
  game_state g <> BETTING \/ amount < min_bet g \/ amount > max_bet g
  \/ amount > bankroll g ->
  place_bet amount g = (Ret false, g).
Proof.
  intros H. unfold place_bet.
  destruct (GameState_eqb (game_state g) BETTING) eqn:Es; simpl; [|reflexivity].
  apply GameState_eqb_eq in Es.
  destruct (amount <? min_bet g) eqn:Elo; simpl; [reflexivity|].
  destruct (amount >? max_bet g) eqn:Ehi; simpl; [reflexivity|].
  apply Z.ltb_ge in Elo. rewrite Z.gtb_ltb in Ehi. apply Z.ltb_ge in Ehi.
  unfold Player.place_bet.
  destruct (amount <=? Player.bankroll (player g)) eqn:Eb; [|reflexivity].
  apply Z.leb_le in Eb. unfold bankroll in H.
  destruct H as [H|H]; [congruence|lia].
Qed.

(** The player after [Player.place_bet] accepted [amount]. *)
Lemma place_bet_accepted (amount : Z) (g : t) :
  game_state g = BETTING ->
  min_bet g <= amount <= max_bet g ->
  amount <= bankroll g ->
  place_bet amount g =
  bind _start_round (fun _ => ret true)
    (set_player (Player.mk (Player.name (player g)) (bankroll g - amount)
                           (Hand.mk (player_cards g) amount)) g).
Proof.
  intros Hs [Hlo Hhi] Hb. unfold place_bet. rewrite Hs. simpl.
  assert (Elo : (amount <? min_bet g) = false) by (apply Z.ltb_ge; lia).
  assert (Ehi : (amount >? max_bet g) = false)
    by (rewrite Z.gtb_ltb; apply Z.ltb_ge; lia).
  rewrite Elo, Ehi. simpl. unfold Player.place_bet.
  assert (Eb : (amount <=? Player.bankroll (player g)) = true)
    by (apply Z.leb_le; exact Hb).
  rewrite Eb. reflexivity.
Qed.

Lemma place_bet_cases (amount : Z) (g : t) :
  (game_state g <> BETTING \/ amount < min_bet g \/ amount > max_bet g
   \/ amount > bankroll g)
  \/ (game_state g = BETTING /\ min_bet g <= amount <= max_bet g
      /\ amount <= bankroll g).
Proof.
  destruct (GameState_eqb (game_state g) BETTING) eqn:Es.
  - apply GameState_eqb_eq in Es. 
    destruct (Z_lt_ge_dec amount (min_bet g)); [left; lia|].
    destruct (Z_gt_le_dec amount (max_bet g)); [left; lia|].
    destruct (Z_gt_le_dec amount (bankroll g)); [left; lia|].
    right. repeat split; try assumption; lia.
  - apply GameState_eqb_neq in Es. left. now left.
Qed.

(** Every exit of [place_bet]: a rejection that changes nothing, or an
    accepted bet, after which the recorded bet is 0 and the bankroll is
    down by [amount]. *)
Lemma place_bet_invariants (amount : Z) (g : t) :
  forall o g', place_bet amount g = (o, g') ->
    (o = Ret false /\ g' = g)
    \/ ((game_state g = BETTING /\ min_bet g <= amount <= max_bet g
         /\ amount <= bankroll g)
        /\ player_bet g' = 0
        /\ bankroll g' = bankroll g - amount
        /\ min_bet g' = min_bet g
        /\ max_bet g' = max_bet g
        /\ Deck.num_decks (deck g') = Deck.num_decks (deck g)
        /\ (o = Ret true
            \/ exists e, o = Raise e /\ Deck.num_decks (deck g) <= 0
                         /\ game_state g' = BETTING)
        /\ (Deck.cards (deck g) = [] -> Deck.num_decks (deck g) <= 0 ->
            Deck.cards (deck g') = [] /\ game_state g' = BETTING)).
Proof.
  intros o g' E.
  destruct (place_bet_cases amount g) as [Hr|(Hs & Hm & Hb)].
  - left. rewrite (place_bet_rejected _ _ Hr) in E. inversion E; auto.
  - right. split; [auto|].
    rewrite (place_bet_accepted _ _ Hs Hm Hb) in E.
    unfold bind in E.
    destruct (_start_round _) as [o1 g1] eqn:E1.
    apply start_round_invariants in E1.
    destruct E1 as (Hbet & Hmin & Hmax & Hnd & Hbank & Hfuel & Hraise & Hex).
    simpl in Hmin, Hmax, Hnd, Hbank, Hraise, Hex.
    unfold bankroll in Hbank; simpl in Hbank.
    destruct o1 as [[]|e|]; [| |congruence].
    + unfold ret in E. inversion E; subst.
      split; [assumption|]. split; [assumption|]. split; [assumption|].
      split; [assumption|]. split; [assumption|]. split; [now left|].
      intros Hc Hn. rewrite Hs in Hex. now apply Hex.
    + inversion E; subst.
      destruct (Hraise e eq_refl) as [Hle Hst]. rewrite Hs in Hst.
      split; [assumption|]. split; [assumption|]. split; [assumption|].
      split; [assumption|]. split; [assumption|].
      split; [right; exists e; auto|].
      intros Hc Hn. rewrite Hs in Hex. now apply Hex.
Qed.

(** ** Engine: the dealer *)

Lemma dealer_loop_spec (fuel : nat) : forall g : t,
  exists o g' drawn,
    dealer_loop fuel g = (o, g')
    /\ dealer_only g g'
    /\ drew_below_17 g g' drawn
    /\ (o = Ret tt -> 17 <= Hand.value (dealer_hand g'))
    /\ (17 <= Hand.value (dealer_hand g) -> o = Ret tt /\ g' = g)
    /\ (forall e, o = Raise e -> Deck.num_decks (deck g) <= 0)
    /\ (o = OutOfFuel -> hard_total (dealer_cards g) + Z.of_nat fuel < 17).
Proof.
  induction fuel as [|fuel IH]; intros g; simpl.
  - destruct (Hand.value (dealer_hand g) <? 17) eqn:E.
    + apply Z.ltb_lt in E. exists OutOfFuel, g, [].
      pose proof (value_ge_hard (dealer_hand g)). unfold dealer_cards.
      repeat split; try congruence; try lia.
      * now rewrite app_nil_r.
      * simpl; lia.
    + apply Z.ltb_ge in E. exists (Ret tt), g, [].
      repeat split; try congruence; try lia.
      * unfold dealer_cards. now rewrite app_nil_r.
      * simpl; lia.
  - destruct (Hand.value (dealer_hand g) <? 17) eqn:E.
    + apply Z.ltb_lt in E. unfold bind.
      destruct (draw_cases (deck g)) as [(c & d & Hd & Hn)|(d & Hd & Hn & Hle)].
      * rewrite (deal_dealer_ret g c d Hd).
        destruct (IH (mk d (player g) (Hand.add_card c (dealer_hand g))
                         (min_bet g) (max_bet g) (game_state g) (round_result g)))
          as (o & g' & drawn & Hl & Hdo & Hdr & Hret & _ & Hraise & Hfuel).
        exists o, g', (c :: drawn). rewrite Hl.
        unfold dealer_only, drew_below_17, dealer_cards in *. simpl in *.
        destruct Hdo as (? & ? & ? & ? & ? & ? & ?).
        destruct Hdr as [Hc Hpre].
        split; [reflexivity|].
        split; [repeat split; congruence|].
        split; [split|].
        -- rewrite Hc, <- app_assoc. reflexivity.
        -- intros n Hlt. destruct n as [|n]; simpl.
           ++ rewrite app_nil_r. exact E.
           ++ specialize (Hpre n). rewrite <- app_assoc in Hpre. simpl in Hpre.
              apply Hpre. lia.
        -- split; [exact Hret|].
           split; [lia|].
           split; [intros e He; specialize (Hraise e He); lia|].
           intros Ho. specialize (Hfuel Ho).
           pose proof (hard_total_snoc (Hand.cards (dealer_hand g)) c). lia.
      * rewrite (deal_dealer_raise g _ d Hd).
        exists (Raise IndexError), (set_deck d g), [].
        unfold dealer_only, drew_below_17, dealer_cards. simpl.
        repeat split; try congruence; try lia;
          try (now rewrite app_nil_r); simpl; lia.
    + apply Z.ltb_ge in E. exists (Ret tt), g, [].
      repeat split; try congruence; try lia.
      * unfold dealer_cards. now rewrite app_nil_r.
      * simpl; lia.
Qed.

(** The loop never runs out of the 17 rounds it is given, and more rounds
    change nothing. *)
Lemma dealer_loop_total (g : t) : fst (dealer_loop dealer_fuel g) <> OutOfFuel.
Proof.
  destruct (dealer_loop_spec dealer_fuel g)
    as (o & g' & drawn & Hl & _ & _ & _ & _ & _ & Hfuel).
  rewrite Hl. simpl. intros Ho. specialize (Hfuel Ho).
  pose proof (hard_total_nonneg (dealer_cards g)). unfold dealer_fuel in Hfuel. lia.
Qed.

Lemma dealer_loop_more_fuel (fuel : nat) : forall (g : t) (fuel' : nat),
  fst (dealer_loop fuel g) <> OutOfFuel -> (fuel <= fuel')%nat ->
  dealer_loop fuel' g = dealer_loop fuel g.
Proof.
  induction fuel as [|fuel IH]; intros g fuel' Hne Hle.
  - simpl in *. destruct (Hand.value (dealer_hand g) <? 17) eqn:E.
    + simpl in Hne. congruence.
    + destruct fuel'; simpl; now rewrite E.
  - destruct fuel' as [|fuel']; [lia|].
    simpl in *. destruct (Hand.value (dealer_hand g) <? 17) eqn:E; [|reflexivity].
    unfold bind in *. destruct (deal_dealer g) as [[[]|e|] g1]; try reflexivity.
    apply IH; [exact Hne|lia].
Qed.

(** ** Engine: hit and stand *)

Lemma hit_rejected (g : t) :
  game_state g <> PLAYER_TURN -> hit g = (Ret false, g).
Proof.
  intros H. unfold hit. apply GameState_eqb_neq in H. now rewrite H.
Qed.

Lemma hit_accepted (g : t) (c : Card.t) (d : Deck.t) :
  game_state g = PLAYER_TURN ->
  Deck.draw (deck g) = (Ret c, d) ->
  hit g =
  (Ret true,
   if 21 <? cards_value (player_cards g ++ [c])
   then mk d (Player.give c (player g)) (dealer_hand g) (min_bet g) (max_bet g)
           ROUND_OVER (Some BUSTED)
   else mk d (Player.give c (player g)) (dealer_hand g) (min_bet g) (max_bet g)
           PLAYER_TURN (round_result g)).
Proof.
  intros Hs Hd. unfold hit. rewrite Hs. simpl. unfold bind at 1.
  rewrite (deal_player_ret g c d Hd). unfold bind, Hand.is_busted. simpl.
  rewrite value_cards_value. simpl. fold (player_cards g).
  destruct (21 <? cards_value (player_cards g ++ [c])); simpl; [reflexivity|].
  now rewrite Hs.
Qed.

Lemma hit_raise (g : t) (e : exn) (d : Deck.t) :
  game_state g = PLAYER_TURN ->
  Deck.draw (deck g) = (Raise e, d) ->
  hit g = (Raise e, set_deck d g).
Proof.
  intros Hs Hd. unfold hit. rewrite Hs. simpl. unfold bind at 1.
  now rewrite (deal_player_raise g e d Hd).
Qed.

Lemma stand_rejected (g : t) :
  game_state g <> PLAYER_TURN -> stand g = (Ret false, g).
Proof.
  intros H. unfold stand. apply GameState_eqb_neq in H. now rewrite H.
Qed.

(** Every exit of an accepted [stand]. *)
Lemma stand_accepted (g : t) :
  game_state g = PLAYER_TURN ->
  exists o g' drawn,
    stand g = (o, g')
    /\ Player.hand (player g') = Player.hand (player g)
    /\ min_bet g' = min_bet g
    /\ max_bet g' = max_bet g
    /\ Deck.num_decks (deck g') = Deck.num_decks (deck g)
    /\ Hand.bet (dealer_hand g') = Hand.bet (dealer_hand g)
    /\ drew_below_17 g g' drawn
    /\ (17 <= Hand.value (dealer_hand g) ->
        dealer_hand g' = dealer_hand g /\ deck g' = deck g)
    /\ ((o = Ret true
         /\ game_state g' = ROUND_OVER
         /\ 17 <= Hand.value (dealer_hand g')
         /\ round_result g' =
            Some (fst (settlement (Hand.value (Player.hand (player g)))
                                  (Hand.value (dealer_hand g')) (player_bet g)))
         /\ bankroll g' =
            bankroll g
            + snd (settlement (Hand.value (Player.hand (player g)))
                              (Hand.value (dealer_hand g')) (player_bet g)))
        \/ (exists e, o = Raise e
                      /\ Deck.num_decks (deck g) <= 0
                      /\ bankroll g' = bankroll g)).
Proof.
  intros Hs. unfold stand. rewrite Hs. simpl.
  unfold _dealer_play, bind, modify.
  destruct (dealer_loop_spec dealer_fuel (set_game_state DEALER_TURN g))
    as (o & gl & drawn & Hl & Hdo & Hdr & Hret & Hstay & Hraise & Hfuel).
  pose proof (dealer_loop_total (set_game_state DEALER_TURN g)) as Htot.
  rewrite Hl in *. simpl in Htot.
  destruct Hdo as (Hp & Hmin & Hmax & Hst & Hrr & Hnd & Hb).
  unfold drew_below_17, dealer_cards in *. simpl in *.
  destruct o as [[]|e|]; [| |congruence].
  - destruct (determine_round_result_spec gl) as (pl & Hdet & Hbank & Hhand & Hname).
    rewrite Hdet. unfold ret. exists (Ret true). eexists. exists drawn.
    split; [reflexivity|]. unfold player_bet, bankroll in *. simpl.
    rewrite Hp in *.
    split; [assumption|]. split; [assumption|]. split; [assumption|].
    split; [assumption|]. split; [assumption|]. split; [assumption|].
    split.
    + intros H17. destruct (Hstay H17) as [_ ->]. auto.
    + left. auto.
  - exists (Raise e), gl, drawn.
    split; [reflexivity|]. unfold bankroll. rewrite Hp.
    split; [reflexivity|]. split; [assumption|]. split; [assumption|].
    split; [assumption|]. split; [assumption|]. split; [assumption|].
    split.
    + intros H17. destruct (Hstay H17) as [? _]. discriminate.
    + right. exists e. split; [reflexivity|]. split; [now apply (Hraise e)|reflexivity].
Qed.

(** ** Engine: what one public operation can do *)

Lemma start_new_round_spec (g : t) :
  start_new_round g =
  (Ret tt, if GameState_eqb (game_state g) ROUND_OVER
           then mk (deck g) (player g) (dealer_hand g) (min_bet g) (max_bet g)
                   BETTING None
           else g).
Proof.
  unfold start_new_round. now destruct (GameState_eqb (game_state g) ROUND_OVER).
Qed.

Lemma step_facts (o : op) (g : t) :
  min_bet (step o g) = min_bet g
  /\ Deck.num_decks (deck (step o g)) = Deck.num_decks (deck g)
  /\ bankroll_move o g (step o g)
  /\ (playable g -> playable (step o g)).
Proof.
  assert (Hplay : forall g',
            Deck.num_decks (deck g') = Deck.num_decks (deck g) ->
            (Deck.num_decks (deck g) <= 0 -> Deck.cards (deck g) = [] ->
             game_state g = BETTING ->
             Deck.cards (deck g') = [] /\ game_state g' = BETTING) ->
            playable g -> playable g').
  { intros g' Hnd Hex [Hp|[Hc Hs]].
    - left. lia.
    - destruct (Z_le_gt_dec 1 (Deck.num_decks (deck g))); [left; lia|].
      right. apply Hex; [lia|assumption|assumption]. }
  destruct o as [amount| | | |]; simpl.
  - destruct (place_bet amount g) as [o g'] eqn:E. simpl.
    apply place_bet_invariants in E.
    destruct E as [[_ ->]|((Hs & Hm & Hb) & Hbet & Hbank & Hmin & Hmax & Hnd & _ & Hex)].
    + repeat split; auto. left. auto.
    + split; [assumption|]. split; [assumption|]. split.
      * right. left. exists amount. repeat split; try assumption; lia.
      * apply Hplay; [assumption|]. intros Hle Hc _. now apply Hex.
  - destruct (GameState_eqb (game_state g) PLAYER_TURN) eqn:Es.
    + apply GameState_eqb_eq in Es.
      destruct (draw_cases (deck g)) as [(c & d & Hd & Hn)|(d & Hd & Hn & Hle)].
      * rewrite (hit_accepted g c d Es Hd). simpl.
        destruct (21 <? cards_value (player_cards g ++ [c])); simpl;
          (split; [reflexivity|]; split; [assumption|]; split;
           [left; unfold bankroll, player_bet; simpl; auto
           |apply Hplay; [assumption|simpl; intros; congruence]]).
      * rewrite (hit_raise g _ d Es Hd). simpl.
        split; [reflexivity|]. split; [assumption|]. split.
        -- left. unfold bankroll, player_bet; simpl; auto.
        -- apply Hplay; [assumption|simpl; intros; congruence].
    + apply GameState_eqb_neq in Es. rewrite (hit_rejected g Es). simpl.
      repeat split; auto. left. auto.
  - destruct (GameState_eqb (game_state g) PLAYER_TURN) eqn:Es.
    + apply GameState_eqb_eq in Es.
      destruct (stand_accepted g Es)
        as (o & g' & drawn & E & Hh & Hmin & Hmax & Hnd & _ & _ & _ & Hres).
      rewrite E. simpl.
      split; [assumption|]. split; [assumption|]. split.
      * assert (Hb : player_bet g' = player_bet g)
          by (unfold player_bet; now rewrite Hh).
        destruct Hres as [(_ & _ & _ & _ & Hbank)|(e & _ & _ & Hbank)].
        -- destruct (settlement_credit (Hand.value (Player.hand (player g)))
                       (Hand.value (dealer_hand g')) (player_bet g)) as [H|[H|H]];
             rewrite H in Hbank.
           ++ left. split; [lia|auto].
           ++ right. right. auto.
           ++ right. right. auto.
        -- left. auto.
      * apply Hplay; [assumption|intros; congruence].
    + apply GameState_eqb_neq in Es. rewrite (stand_rejected g Es). simpl.
      repeat split; auto. left. auto.
  - rewrite start_new_round_spec. simpl.
    destruct (GameState_eqb (game_state g) ROUND_OVER) eqn:Es; simpl.
    + apply GameState_eqb_eq in Es.
      split; [reflexivity|]. split; [reflexivity|]. split.
      * left. unfold bankroll, player_bet; simpl; auto.
      * apply Hplay; [reflexivity|simpl; intros; auto].
    + repeat split; auto. left. auto.
  - repeat split; auto. left. auto.
Qed.

Lemma run_snoc (ops : list op) (o : op) (g : t) :
  run (ops ++ [o]) g = step o (run ops g).
Proof. unfold run. now rewrite fold_left_app. Qed.

Lemma reachable_run (ops : list op) (g : t) : reachable g -> reachable (run ops g).
Proof.
  intros Hr. induction ops as [|o ops IH] using rev_ind; [exact Hr|].
  rewrite run_snoc. now constructor.
Qed.

Lemma init_playable (n lo hi : Z) (r : Deck.Rng) (b : Z) :
  playable (set_player (Player.init "Player"%string b) (init n lo hi r)).
Proof.
  unfold playable. simpl.
  destruct (Z_le_gt_dec 1 n) as [Hn|Hn].
  - left. unfold Deck.init. now rewrite shuffle_num_decks.
  - right. split; [|reflexivity].
    unfold Deck.init. apply length_zero_iff_nil.
    rewrite shuffle_length, build_deck_length. simpl. lia.
Qed.

Lemma reachable_playable (g : t) : reachable g -> playable g.
Proof.
  induction 1 as [n lo hi r b|o g Hr IH].
  - apply init_playable.
  - now apply step_facts.
Qed.

(** In a reachable engine outside BETTING the shoe can always be rebuilt. *)
Lemma reachable_in_round (g : t) :
  reachable g -> game_state g <> BETTING -> 1 <= Deck.num_decks (deck g).
Proof.
  intros Hr Hs. destruct (reachable_playable g Hr) as [H|[_ H]]; [exact H|contradiction].
Qed.

(** * The claims *)

(** ** Shoe *)

(** C7, as the claim states it, fails on a shoe built with no decks:
    [Deck(0)] is empty, the rebuild inside [draw] yields no card, and
    [pop] raises [IndexError]. *)
Lemma C7_draw_fails_without_decks :
  Deck.draw (Deck.init 0 tape_zero) = (Raise IndexError, Deck.init 0 tape_zero)
  /\ ~ (exists c d', Deck.draw (Deck.init 0 tape_zero) = (Ret c, d')).
Proof.
  assert (E : Deck.draw (Deck.init 0 tape_zero)
              = (Raise IndexError, Deck.init 0 tape_zero)) by reflexivity.
  split; [exact E|].
  intros (c & d' & H). rewrite E in H. discriminate.
Qed.

(** C7 (amended): on every shoe that holds a card or is configured with
    at least one deck, [draw] returns a card and keeps the configuration.
    From a non-empty shoe the card is the last of the sequence, which
    loses exactly that card, and nothing is shuffled.  From an empty shoe
    the card and the cards left are together a permutation of
    [num_decks] full decks, so [52 * num_decks - 1] cards are left. *)
Theorem C7_draw_replenishes (d : Deck.t) :
  Deck.cards d <> [] \/ 1 <= Deck.num_decks d ->
  exists c d',
    Deck.draw d = (Ret c, d')
    /\ Deck.num_decks d' = Deck.num_decks d
    /\ (Deck.cards d <> [] ->
        Deck.cards d = Deck.cards d' ++ [c] /\ Deck.entropy d' = Deck.entropy d)
    /\ (Deck.cards d = [] ->
        Deck.cards d' ++ [c]
          ≡ₚ List.concat (repeat Deck.one_deck (Z.to_nat (Deck.num_decks d)))
        /\ Deck.len d' = 52 * Deck.num_decks d - 1).
Proof.
  intros H.
  assert (Hs : supplies 1 d).
  { destruct H as [H|H]; [left|now right].
    destruct (Deck.cards d); [contradiction|simpl; lia]. }
  destruct (draw_supplies 0 d Hs) as (c & d' & Hd & Hc & Hn & He & _).
  exists c, d'. split; [exact Hd|]. split; [exact Hn|]. split.
  - intros Hne. unfold replenished in Hc, He.
    destruct (Deck.cards d) eqn:E; [contradiction|].
    rewrite E in Hc. auto.
  - intros Hnil. unfold replenished in Hc. rewrite Hnil in Hc.
    assert (Hnd : 1 <= Deck.num_decks d).
    { destruct H as [H|H]; [contradiction|exact H]. }
    split.
    + rewrite <- Hc. apply shuffle_perm.
    + apply (f_equal (@length _)) in Hc.
      rewrite shuffle_length, build_deck_length, length_app in Hc. simpl in Hc.
      unfold Deck.len. lia.
Qed.

Lemma C7_draw_replenishes_witness :
  (Deck.cards (Deck.mk 2 [] tape_count) <> [] \/ 1 <= 2)
  /\ exists c d',
       Deck.draw (Deck.mk 2 [] tape_count) = (Ret c, d') /\ Deck.len d' = 103.
Proof.
  split; [right; lia|].
  destruct (C7_draw_replenishes (Deck.mk 2 [] tape_count)) as (c & d' & Hd & _ & _ & He).
  - right. simpl. lia.
  - exists c, d'. split; [exact Hd|].
    destruct (He eq_refl) as [_ Hl]. exact Hl.
Defined.

(** ** Hand *)

(** C8: the value of a hand is the total of the point table (ace 11,
    face cards 10, number cards their number) less 10 for each of [k]
    aces, where the [k] reductions are made greedily: each one while the
    running total is above 21, stopping above 21 only when every ace has
    been reduced.  So the value is at most 21 whenever some number of
    reductions reaches at most 21, and otherwise it is the least total
    reachable, which is at least 22. *)
Theorem C8_hand_value (h : Hand.t) :
  let r := raw_total (Hand.cards h) in
  let a := ace_count (Hand.cards h) in
  (exists k : nat,
     (k <= a)%nat
     /\ Hand.value h = r - 10 * Z.of_nat k
     /\ (forall j : nat, (j < k)%nat -> 21 < r - 10 * Z.of_nat j)
     /\ (21 < Hand.value h -> k = a))
  /\ ((exists j : nat, (j <= a)%nat /\ r - 10 * Z.of_nat j <= 21) ->
      Hand.value h <= 21)
  /\ ((forall j : nat, (j <= a)%nat -> 21 < r - 10 * Z.of_nat j) ->
      22 <= Hand.value h
      /\ Hand.value h = r - 10 * Z.of_nat a
      /\ forall j : nat, (j <= a)%nat -> Hand.value h <= r - 10 * Z.of_nat j).
Proof.
  intros r a. rewrite value_unfold. fold r a.
  destruct (soften_greedy a r) as (k & Hk & Hv & Hj & Hs).
  split; [exists k; auto|]. split.
  - intros (j & Hja & Hj21).
    destruct (Z_le_gt_dec (Hand.soften a r) 21) as [|Hgt]; [assumption|].
    assert (k = a) by (apply Hs; lia). subst k.
    destruct (Nat.eq_dec j a) as [->|Hne]; [lia|].
    specialize (Hj j). lia.
  - intros Hall.
    assert (Hka : k = a).
    { destruct (Nat.eq_dec k a) as [|Hne]; [assumption|].
      apply Hs. specialize (Hall k). lia. }
    subst k. pose proof (Hall a). split; [lia|]. split; [lia|].
    intros j Hja. lia.
Qed.

(** ** Betting *)

(** C5: a bet placed outside BETTING, below [min_bet], above [max_bet] or
    above the bankroll returns false and leaves the whole engine as it
    was. *)
Theorem C5_rejected_bet_changes_nothing (g : t) (amount : Z) :
  game_state g <> BETTING \/ amount < min_bet g \/ amount > max_bet g
  \/ amount > bankroll g ->
  place_bet amount g = (Ret false, g).
Proof. apply place_bet_rejected. Qed.

Lemma C5_rejected_bet_changes_nothing_witness :
  (game_state engine_natural <> BETTING \/ 5 < min_bet engine_natural
   \/ 5 > max_bet engine_natural \/ 5 > bankroll engine_natural)
  /\ place_bet 5 engine_natural = (Ret false, engine_natural).
Proof.
  assert (H : game_state engine_natural <> BETTING \/ 5 < min_bet engine_natural
              \/ 5 > max_bet engine_natural \/ 5 > bankroll engine_natural).
  { right. left. change (5 < 10). lia. }
  split; [exact H|].
  exact (C5_rejected_bet_changes_nothing engine_natural 5 H).
Defined.

(** C4, as the claim states it, fails on an engine built with no decks:
    the bet passes every check, the first deal raises [IndexError], and
    the call returns nothing. *)
Lemma C4_bet_raises_without_decks :
  game_state engine_no_decks = BETTING
  /\ min_bet engine_no_decks <= 100 <= max_bet engine_no_decks
  /\ 100 <= bankroll engine_no_decks
  /\ fst (place_bet 100 engine_no_decks) = Raise IndexError
  /\ fst (place_bet 100 engine_no_decks) <> Ret true.
Proof.
  assert (E : fst (place_bet 100 engine_no_decks) = Raise IndexError) by reflexivity.
  split; [reflexivity|].
  split; [change (10 <= 100 <= 500); lia|].
  split; [change (100 <= 1000); lia|].
  split; [exact E|]. rewrite E. discriminate.
Qed.

(** C4 (amended): in BETTING, with [amount] within the limits and the
    bankroll, and a shoe that can supply four cards (it holds four, or it
    is configured with at least one deck), [place_bet] returns true; the
    bankroll is down by [amount]; the hands hold exactly the four cards
    drawn in turn from the shoe, first and third to the player, second
    and fourth to the dealer; the state is PLAYER_TURN with the result
    untouched, or ROUND_OVER when the player's two cards are a
    blackjack. *)
Theorem C4_accepted_bet_deals (g : t) (amount : Z) :
  game_state g = BETTING ->
  min_bet g <= amount <= max_bet g ->
  amount <= bankroll g ->
  supplies 4 (deck g) ->
  exists c1 c2 c3 c4 d1 d2 d3 d4 g',
    Deck.draw (deck g) = (Ret c1, d1)
    /\ Deck.draw d1 = (Ret c2, d2)
    /\ Deck.draw d2 = (Ret c3, d3)
    /\ Deck.draw d3 = (Ret c4, d4)
    /\ place_bet amount g = (Ret true, g')
    /\ bankroll g' = bankroll g - amount
    /\ player_cards g' = [c1; c3]
    /\ dealer_cards g' = [c2; c4]
    /\ deck g' = d4
    /\ (if Hand.is_blackjack (Hand.mk [c1; c3] 0)
        then game_state g' = ROUND_OVER
        else game_state g' = PLAYER_TURN /\ round_result g' = round_result g).
Proof.
  intros Hs Hm Hb H4.
  destruct (draw_supplies 3 _ H4) as (c1 & d1 & E1 & _ & _ & _ & H3).
  destruct (draw_supplies 2 _ H3) as (c2 & d2 & E2 & _ & _ & _ & H2).
  destruct (draw_supplies 1 _ H2) as (c3 & d3 & E3 & _ & _ & _ & H1).
  destruct (draw_supplies 0 _ H1) as (c4 & d4 & E4 & _ & _ & _ & _).
  exists c1, c2, c3, c4, d1, d2, d3, d4.
  rewrite (place_bet_accepted _ _ Hs Hm Hb). unfold bind.
  match goal with
  | |- context [ _start_round ?x ] =>
      rewrite (start_round_dealt x c1 c2 c3 c4 d1 d2 d3 d4 E1 E2 E3 E4)
  end.
  destruct (Hand.is_blackjack _).
  - match goal with
    | |- context [ _handle_blackjack ?x ] =>
        rewrite (handle_blackjack_spec x c2 [c4] eq_refl)
    end.
    eexists. repeat split; try eassumption; try reflexivity.
    unfold bankroll, player_bet. simpl.
    destruct (_ && _); [|change (int_times_2_5 0) with 0]; lia.
  - eexists. repeat split; try eassumption; reflexivity.
Qed.

Lemma C4_accepted_bet_deals_witness :
  (game_state engine_one_deck = BETTING
   /\ min_bet engine_one_deck <= 100 <= max_bet engine_one_deck
   /\ 100 <= bankroll engine_one_deck
   /\ supplies 4 (deck engine_one_deck))
  /\ exists g', place_bet 100 engine_one_deck = (Ret true, g')
                /\ bankroll g' = bankroll engine_one_deck - 100
                /\ length (player_cards g') = 2%nat
                /\ length (dealer_cards g') = 2%nat.
Proof.
  assert (Hs : game_state engine_one_deck = BETTING) by reflexivity.
  assert (Hm : min_bet engine_one_deck <= 100 <= max_bet engine_one_deck)
    by (change (10 <= 100 <= 500); lia).
  assert (Hb : 100 <= bankroll engine_one_deck)
    by (change (100 <= 1000); lia).
  assert (H4 : supplies 4 (deck engine_one_deck)).
  { right. vm_compute. discriminate. }
  split; [auto|].
  destruct (C4_accepted_bet_deals engine_one_deck 100 Hs Hm Hb H4)
    as (c1 & c2 & c3 & c4 & d1 & d2 & d3 & d4 & g' & E1 & E2 & E3 & E4
        & E & Hbank & Hp & Hd & Hdeck & Hst).
  exists g'. rewrite Hp, Hd. auto.
Defined.

(** C3: when [place_bet] returns true, [Player.place_bet] had recorded
    the wager in the hand and the reset of [_start_round] zeroed it: the
    bet recorded in the player's hand is 0, whatever was wagered, and the
    bankroll is down by the wager even if the round was settled as a
    blackjack.  The recorded bet
    is still 0 after any further run of public operations, and a run
    without another bet leaves the bankroll where it was: every
    settlement credits 0. *)
Theorem C3_recorded_bet_is_zero (g : t) (amount : Z) (g' : t) :
  place_bet amount g = (Ret true, g') ->
  (exists p,
     Player.place_bet amount (player g) = (true, p)
     /\ Hand.bet (Player.hand p) = amount
     /\ Hand.bet (Player.hand (Player.reset_hand p)) = 0)
  /\ player_bet g' = 0
  /\ bankroll g' = bankroll g - amount
  /\ forall ops : list op,
       player_bet (run ops g') = 0
       /\ ((forall a, ~ In (PlaceBet a) ops) ->
           bankroll (run ops g') = bankroll g').
Proof.
  intros E. apply place_bet_invariants in E.
  destruct E as [[E _]|((_ & _ & Hcover) & Hbet & Hbank & _)]; [discriminate|].
  split.
  { unfold Player.place_bet. apply Z.leb_le in Hcover.
    unfold bankroll in Hcover. rewrite Hcover. eexists.
    split; [reflexivity|]. split; reflexivity. }
  split; [exact Hbet|]. split; [exact Hbank|].
  intros ops. induction ops as [|o ops IH] using rev_ind.
  - split; [exact Hbet|reflexivity].
  - rewrite run_snoc. destruct IH as [IHb IHk].
    destruct (step_facts o (run ops g')) as (_ & _ & Hmove & _).
    destruct Hmove as [[Hk Hb]|[(a & Ho & _ & _ & Hb)|(Ho & Hb & Hk)]].
    + split; [destruct Hb; congruence|].
      intros Hno. rewrite Hk. apply IHk.
      intros a Hin. apply (Hno a). apply in_or_app. now left.
    + split; [exact Hb|].
      intros Hno. exfalso. apply (Hno a). apply in_or_app. right. subst o. now left.
    + split; [congruence|].
      intros Hno. rewrite <- IHk.
      * rewrite IHb in Hk. destruct Hk; lia.
      * intros a Hin. apply (Hno a). apply in_or_app. now left.
Qed.

Lemma C3_recorded_bet_is_zero_witness :
  place_bet 100 engine_natural = (Ret true, snd (place_bet 100 engine_natural))
  /\ player_bet (snd (place_bet 100 engine_natural)) = 0
  /\ bankroll (snd (place_bet 100 engine_natural)) = 900.
Proof.
  assert (E : place_bet 100 engine_natural
              = (Ret true, snd (place_bet 100 engine_natural)))
    by (vm_compute; reflexivity).
  split; [exact E|].
  destruct (C3_recorded_bet_is_zero engine_natural 100 _ E) as (_ & Hb & Hk & _).
  split; [exact Hb|exact Hk].
Defined.

(** ** Bankroll *)

Lemma step_keeps_solvent (o : op) (g : t) :
  0 <= bankroll g -> 0 <= player_bet g ->
  0 <= bankroll (step o g) /\ 0 <= player_bet (step o g).
Proof.
  intros Hk Hb.
  destruct (step_facts o g) as (_ & _ & Hmove & _).
  destruct Hmove as [[Hk' Hb']|[(a & _ & Ha & Hk' & Hb')|(_ & Hb' & Hk')]].
  - split; [lia|]. destruct Hb'; lia.
  - split; lia.
  - split; [destruct Hk'; lia|lia].
Qed.

Lemma run_keeps_solvent (ops : list op) (g : t) :
  0 <= bankroll g -> 0 <= player_bet g ->
  0 <= bankroll (run ops g) /\ 0 <= player_bet (run ops g).
Proof.
  intros Hk Hb. induction ops as [|o ops IH] using rev_ind.
  - now split.
  - rewrite run_snoc. destruct IH as [IHk IHb]. now apply step_keeps_solvent.
Qed.

(** C6: an engine built with a bankroll [b >= 0] and a [min_bet >= 0]
    has a bankroll of at least 0 after any run of public operations,
    including the runs in which a call raised. *)
Theorem C6_bankroll_never_negative
    (n lo hi : Z) (r : Deck.Rng) (b : Z) (ops : list op) :
  0 <= b -> 0 <= lo ->
  0 <= bankroll (run ops (set_player (Player.init "Player"%string b)
                                     (init n lo hi r))).
Proof.
  intros Hb Hlo.
  apply run_keeps_solvent; [exact Hb|]. unfold player_bet. simpl. lia.
Qed.

Lemma C6_bankroll_never_negative_witness :
  (0 <= 1000 /\ 0 <= 10)
  /\ 0 <= bankroll (run [PlaceBet 100; Hit; Stand; StartNewRound; GetGameInfo]
                        engine_one_deck).
Proof.
  assert (Hb : 0 <= 1000) by lia.
  assert (Hlo : 0 <= 10) by lia.
  split; [auto|].
  exact (C6_bankroll_never_negative 1 10 500 tape_count 1000
           [PlaceBet 100; Hit; Stand; StartNewRound; GetGameInfo] Hb Hlo).
Defined.

(** ** Player turn *)

(** C10: in a reachable engine, [hit] outside PLAYER_TURN returns false
    and changes nothing.  In PLAYER_TURN it returns true, having moved
    the card that [draw] takes from the shoe to the end of the player's
    hand, and nothing else but this: when the new value is above 21 the
    result is BUSTED and the state ROUND_OVER; otherwise state and result
    are as before.  The bankroll is the same in both cases. *)
Theorem C10_hit (g : t) :
  reachable g ->
  (game_state g <> PLAYER_TURN -> hit g = (Ret false, g))
  /\ (game_state g = PLAYER_TURN ->
      exists c d g',
        Deck.draw (deck g) = (Ret c, d)
        /\ hit g = (Ret true, g')
        /\ deck g' = d
        /\ player g' = Player.give c (player g)
        /\ player_cards g' = player_cards g ++ [c]
        /\ bankroll g' = bankroll g
        /\ dealer_hand g' = dealer_hand g
        /\ min_bet g' = min_bet g /\ max_bet g' = max_bet g
        /\ (21 < Hand.value (Player.hand (player g')) ->
            round_result g' = Some BUSTED /\ game_state g' = ROUND_OVER)
        /\ (Hand.value (Player.hand (player g')) <= 21 ->
            round_result g' = round_result g /\ game_state g' = PLAYER_TURN)).
Proof.
  intros Hr. split; [apply hit_rejected|].
  intros Hs.
  assert (Hn : 1 <= Deck.num_decks (deck g)).
  { apply reachable_in_round; [exact Hr|]. rewrite Hs. discriminate. }
  destruct (draw_supplies 0 (deck g)) as (c & d & Hd & _); [now right|].
  exists c, d. rewrite (hit_accepted g c d Hs Hd).
  destruct (21 <? cards_value (player_cards g ++ [c])) eqn:E.
  - apply Z.ltb_lt in E. eexists.
    do 9 (split; [try eassumption; reflexivity|]).
    split; [auto|].
    intros H. rewrite value_cards_value in H. simpl in H.
    fold (player_cards g) in H. lia.
  - apply Z.ltb_ge in E. eexists.
    do 9 (split; [try eassumption; reflexivity|]).
    split; [|auto].
    intros H. rewrite value_cards_value in H. simpl in H.
    fold (player_cards g) in H. lia.
Qed.

Lemma C10_hit_witness :
  reachable engine_in_round
  /\ game_state engine_in_round = PLAYER_TURN
  /\ exists g', hit engine_in_round = (Ret true, g')
                /\ bankroll g' = bankroll engine_in_round.
Proof.
  assert (Hr : reachable engine_in_round).
  { apply reach_step. apply (reach_init 1 10 500 tape_count 1000). }
  assert (Hs : game_state engine_in_round = PLAYER_TURN)
    by (vm_compute; reflexivity).
  split; [exact Hr|]. split; [exact Hs|].
  destruct (C10_hit engine_in_round Hr) as [_ H].
  destruct (H Hs) as (c & d & g' & _ & E & _ & _ & _ & Hk & _).
  exists g'. split; [exact E|exact Hk].
Defined.

(** The cards the dealer loop adds are the cards that successive draws
    take from the shoe, and the shoe it leaves is the shoe after those
    draws. *)
Lemma dealer_loop_draws (fuel : nat) : forall g g' : t,
  dealer_loop fuel g = (Ret tt, g') ->
  exists drawn,
    draw_many (length drawn) (deck g) = (map Ret drawn, deck g')
    /\ drew_below_17 g g' drawn.
Proof.
  induction fuel as [|fuel IH]; intros g g' E; simpl in E.
  - destruct (Hand.value (dealer_hand g) <? 17); [discriminate|].
    inversion E; subst. exists []. split; [reflexivity|].
    split; [now rewrite app_nil_r|]. simpl. intros n Hn. lia.
  - destruct (Hand.value (dealer_hand g) <? 17) eqn:E17.
    + apply Z.ltb_lt in E17. unfold bind in E.
      destruct (draw_cases (deck g)) as [(c & d & Hd & Hn)|(d & Hd & Hn & Hle)].
      * rewrite (deal_dealer_ret g c d Hd) in E.
        destruct (IH _ _ E) as (drawn & Hdraws & Hc & Hpre).
        unfold dealer_cards in Hc, Hpre. simpl in Hdraws, Hc, Hpre.
        exists (c :: drawn). split.
        -- simpl. rewrite Hd, Hdraws. reflexivity.
        -- split.
           ++ unfold dealer_cards. rewrite Hc, <- app_assoc. reflexivity.
           ++ intros n Hlt. destruct n as [|n]; simpl.
              ** rewrite app_nil_r. exact E17.
              ** specialize (Hpre n). rewrite <- app_assoc in Hpre.
                 simpl in Hpre, Hlt. apply Hpre. lia.
      * rewrite (deal_dealer_raise g _ d Hd) in E. discriminate.
    + inversion E; subst. exists []. split; [reflexivity|].
      split; [now rewrite app_nil_r|]. simpl. intros n Hn. lia.
Qed.

Lemma stand_draws (g g' : t) :
  game_state g = PLAYER_TURN ->
  stand g = (Ret true, g') ->
  exists drawn,
    draw_many (length drawn) (deck g) = (map Ret drawn, deck g')
    /\ drew_below_17 g g' drawn.
Proof.
  intros Hs. unfold stand. rewrite Hs. simpl.
  unfold _dealer_play, bind, modify.
  destruct (dealer_loop dealer_fuel (set_game_state DEALER_TURN g))
    as [o gl] eqn:El.
  destruct o as [[]|e|]; try discriminate.
  destruct (determine_round_result_spec gl) as (pl & Hdet & _).
  rewrite Hdet. unfold ret. intros E. inversion E; subst; clear E.
  destruct (dealer_loop_draws _ _ _ El) as (drawn & Hdraws & Hc & Hpre).
  exists drawn. split; [exact Hdraws|]. split; [exact Hc|exact Hpre].
Qed.

(** C9: in a reachable engine, [stand] outside PLAYER_TURN returns false
    and changes nothing.  The dealer loop never exhausts its 17 rounds,
    on any engine, and more rounds change nothing: it terminates.  In
    PLAYER_TURN [stand] returns true with the state ROUND_OVER, the
    result of the settlement set and its credit added to the bankroll.
    The dealer's hand has grown by the cards that successive draws take
    from the shoe, which is left as those draws leave it; each card was
    taken while the hand was worth less than 17, soft or hard, and the
    hand is worth at least 17 at the end; a dealer who already had 17 or
    more took no card. *)
Theorem C9_stand (g : t) :
  reachable g ->
  (game_state g <> PLAYER_TURN -> stand g = (Ret false, g))
  /\ (forall (g0 : t) (fuel : nat),
        (dealer_fuel <= fuel)%nat ->
        fst (dealer_loop fuel g0) <> OutOfFuel
        /\ dealer_loop fuel g0 = dealer_loop dealer_fuel g0)
  /\ (game_state g = PLAYER_TURN ->
      exists g' drawn,
        stand g = (Ret true, g')
        /\ draw_many (length drawn) (deck g) = (map Ret drawn, deck g')
        /\ game_state g' = ROUND_OVER
        /\ drew_below_17 g g' drawn
        /\ 17 <= Hand.value (dealer_hand g')
        /\ (17 <= Hand.value (dealer_hand g) ->
            dealer_hand g' = dealer_hand g /\ deck g' = deck g)
        /\ Player.hand (player g') = Player.hand (player g)
        /\ round_result g' =
           Some (fst (settlement (Hand.value (Player.hand (player g)))
                                 (Hand.value (dealer_hand g'))
                                 (player_bet g)))
        /\ bankroll g' =
           bankroll g
           + snd (settlement (Hand.value (Player.hand (player g)))
                             (Hand.value (dealer_hand g'))
                             (player_bet g))).
Proof.
  intros Hr. split; [apply stand_rejected|]. split.
  - intros g0 fuel Hle.
    assert (E : dealer_loop fuel g0 = dealer_loop dealer_fuel g0)
      by (apply dealer_loop_more_fuel; [apply dealer_loop_total|exact Hle]).
    split; [rewrite E; apply dealer_loop_total|exact E].
  - intros Hs.
    assert (Hn : 1 <= Deck.num_decks (deck g)).
    { apply reachable_in_round; [exact Hr|]. rewrite Hs. discriminate. }
    destruct (stand_accepted g Hs)
      as (o & g' & drawn0 & E & Hh & _ & _ & _ & _ & _ & Hstay & Hres).
    destruct Hres as [(-> & Hst & H17 & Hrr & Hbank)|(e & _ & Hle & _)]; [|lia].
    destruct (stand_draws g g' Hs E) as (drawn & Hdraws & Hdr).
    exists g', drawn. auto 12.
Qed.

Lemma C9_stand_witness :
  reachable engine_in_round
  /\ game_state engine_in_round = PLAYER_TURN
  /\ exists g' drawn,
       stand engine_in_round = (Ret true, g')
       /\ draw_many (length drawn) (deck engine_in_round)
          = (map Ret drawn, deck g')
       /\ game_state g' = ROUND_OVER
       /\ 17 <= Hand.value (dealer_hand g').
Proof.
  assert (Hr : reachable engine_in_round).
  { apply reach_step. apply (reach_init 1 10 500 tape_count 1000). }
  assert (Hs : game_state engine_in_round = PLAYER_TURN)
    by (vm_compute; reflexivity).
  split; [exact Hr|]. split; [exact Hs|].
  destruct (C9_stand engine_in_round Hr) as (_ & _ & H).
  destruct (H Hs) as (g' & drawn & E & Hdraws & Hst & _ & H17 & _).
  exists g', drawn. auto.
Defined.

(** ** Settlement *)

(** C1, on the code: the player wagers 100 from a bankroll of 1000 and
    is dealt ace and king against a dealer showing a seven.  The round
    is settled at once as BLACKJACK, and the bankroll ends at 900: the
    wager is gone and nothing is paid, where the claim has 250 paid.
    Against a dealer who shows an ace and holds 21 the result is TIE and
    the bankroll ends at 900 as well, where the claim has the wager
    returned. *)
Theorem C1_natural_blackjack_pays_nothing :
  (exists g',
     place_bet 100 engine_natural = (Ret true, g')
     /\ player_cards g' = [Card.mk Spades Ace; Card.mk Hearts King]
     /\ dealer_cards g' = [Card.mk Diamonds Seven; Card.mk Clubs Nine]
     /\ Hand.is_blackjack (Player.hand (player g')) = true
     /\ game_state g' = ROUND_OVER
     /\ round_result g' = Some BLACKJACK
     /\ player_bet g' = 0
     /\ bankroll engine_natural = 1000
     /\ bankroll g' = 900)
  /\ (exists g',
        place_bet 100 engine_two_naturals = (Ret true, g')
        /\ player_cards g' = [Card.mk Spades Ace; Card.mk Hearts King]
        /\ dealer_cards g' = [Card.mk Diamonds Ace; Card.mk Clubs King]
        /\ game_state g' = ROUND_OVER
        /\ round_result g' = Some TIE
        /\ bankroll engine_two_naturals = 1000
        /\ bankroll g' = 900).
Proof.
  split.
  - eexists. split; [vm_compute; reflexivity|].
    repeat split; vm_compute; reflexivity.
  - eexists. split; [vm_compute; reflexivity|].
    repeat split; vm_compute; reflexivity.
Qed.

(** C2, on the code: the player wagers 100 from a bankroll of 1000,
    stands on 19 and the dealer holds 19.  The result is TIE and the
    state ROUND_OVER, and the bankroll ends at 900: the wager is not
    returned, where the claim has it refunded.  Standing on 20 against a
    dealer's 17 gives VICTORY and again a bankroll of 900, where the
    claim has twice the wager paid. *)
Theorem C2_push_refunds_nothing :
  (exists g1 g2,
     place_bet 100 engine_push = (Ret true, g1)
     /\ game_state g1 = PLAYER_TURN
     /\ stand g1 = (Ret true, g2)
     /\ Hand.value (Player.hand (player g2)) = 19
     /\ Hand.value (dealer_hand g2) = 19
     /\ game_state g2 = ROUND_OVER
     /\ round_result g2 = Some TIE
     /\ player_bet g1 = 0
     /\ bankroll engine_push = 1000
     /\ bankroll g2 = 900)
  /\ (exists g1 g2,
        place_bet 100 engine_win = (Ret true, g1)
        /\ game_state g1 = PLAYER_TURN
        /\ stand g1 = (Ret true, g2)
        /\ Hand.value (Player.hand (player g2)) = 20
        /\ Hand.value (dealer_hand g2) = 17
        /\ game_state g2 = ROUND_OVER
        /\ round_result g2 = Some VICTORY
        /\ bankroll engine_win = 1000
        /\ bankroll g2 = 900).
Proof.
  split.
  - eexists. eexists. split; [vm_compute; reflexivity|].
    split; [vm_compute; reflexivity|].
    split; [vm_compute; reflexivity|].
    repeat split; vm_compute; reflexivity.
  - eexists. eexists. split; [vm_compute; reflexivity|].
    split; [vm_compute; reflexivity|].
    split; [vm_compute; reflexivity|].
    repeat split; vm_compute; reflexivity.
Qed.

(** * Further properties *)

(** ** Hand values *)

Lemma ace_count_le_length (l : list Card.t) : (ace_count l <= length l)%nat.
Proof. unfold ace_count. apply List.filter_length_le. Qed.

Lemma hard_total_ge_length (l : list Card.t) : Z.of_nat (length l) <= hard_total l.
Proof.
  induction l as [|c l IH] using rev_ind.
  - unfold hard_total, raw_total, ace_count. simpl. lia.
  - pose proof (hard_total_snoc l c). rewrite length_app. simpl. lia.
Qed.

Lemma hard_total_snoc_upper (l : list Card.t) (c : Card.t) :
  hard_total (l ++ [c]) <= hard_total l + 10.
Proof.
  unfold hard_total. rewrite raw_total_snoc, ace_count_snoc.
  destruct c as [s r]. unfold Hand.is_ace. simpl.
  destruct r; simpl; lia.
Qed.

Lemma value_closed_form (h : Hand.t) :
  Hand.value h =
  if (0 <? ace_count (Hand.cards h))%nat && (hard_total (Hand.cards h) + 10 <=? 21)
  then hard_total (Hand.cards h) + 10
  else hard_total (Hand.cards h).
Proof.
  rewrite value_unfold.
  pose proof (ace_count_le_length (Hand.cards h)) as Hal.
  pose proof (hard_total_ge_length (Hand.cards h)) as Hhl.
  unfold hard_total in *.
  set (a := ace_count (Hand.cards h)) in *.
  set (r := raw_total (Hand.cards h)) in *.
  destruct (soften_greedy a r) as (k & Hk & Hv & Hj & Hs).
  rewrite Hv in *.
  destruct (0 <? a)%nat eqn:Ea; simpl.
  - apply Nat.ltb_lt in Ea.
    destruct (r - 10 * Z.of_nat a + 10 <=? 21) eqn:E.
    + apply Z.leb_le in E.
      destruct (Nat.eq_dec k a) as [->|Hne].
      * specialize (Hj (a - 1)%nat). lia.
      * destruct (Nat.eq_dec k (a - 1)%nat) as [->|Hne']; [lia|].
        assert (k = a) by (apply Hs; lia). contradiction.
    + apply Z.leb_gt in E.
      destruct (Nat.eq_dec k a) as [->|Hne]; [reflexivity|].
      assert (k = a) by (apply Hs; lia). contradiction.
  - apply Nat.ltb_ge in Ea. lia.
Qed.

(** X1: the loop of [Hand.value] computes the usual rule: the total
    with every ace counted as 1, plus 10 when the hand has an ace and
    that does not take it above 21. *)
Theorem X1_value_closed_form (h : Hand.t) :
  Hand.value h =
  if (0 <? ace_count (Hand.cards h))%nat && (hard_total (Hand.cards h) + 10 <=? 21)
  then hard_total (Hand.cards h) + 10
  else hard_total (Hand.cards h).
Proof. apply value_closed_form. Qed.

Lemma raw_total_perm (l l' : list Card.t) : l ≡ₚ l' -> raw_total l = raw_total l'.
Proof.
  unfold raw_total. induction 1; simpl; lia.
Qed.

Lemma ace_count_perm (l l' : list Card.t) : l ≡ₚ l' -> ace_count l = ace_count l'.
Proof.
  unfold ace_count. induction 1; simpl; try lia.
  - destruct (Hand.is_ace x); simpl; lia.
  - destruct (Hand.is_ace x), (Hand.is_ace y); simpl; lia.
Qed.

(** X2: the order of the cards does not matter to a hand: two hands with
    the same cards in any order have the same value, and so are busted
    together; the recorded bet plays no part. *)
Theorem X2_value_order_independent (h h' : Hand.t) :
  Hand.cards h ≡ₚ Hand.cards h' ->
  Hand.value h = Hand.value h'
  /\ Hand.is_busted h = Hand.is_busted h'
  /\ Hand.is_blackjack h = Hand.is_blackjack h'.
Proof.
  intros Hp.
  assert (Hv : Hand.value h = Hand.value h').
  { rewrite !value_unfold.
    now rewrite (raw_total_perm _ _ Hp), (ace_count_perm _ _ Hp). }
  split; [exact Hv|].
  unfold Hand.is_busted, Hand.is_blackjack.
  rewrite Hv, (Permutation_length Hp). auto.
Qed.

Lemma X2_value_order_independent_witness :
  Hand.cards (Hand.mk [Card.mk Spades Ace; Card.mk Hearts Nine; Card.mk Clubs Five] 0)
    ≡ₚ Hand.cards (Hand.mk [Card.mk Clubs Five; Card.mk Spades Ace; Card.mk Hearts Nine] 70)
  /\ Hand.value (Hand.mk [Card.mk Spades Ace; Card.mk Hearts Nine; Card.mk Clubs Five] 0)
     = Hand.value (Hand.mk [Card.mk Clubs Five; Card.mk Spades Ace; Card.mk Hearts Nine] 70).
Proof.
  assert (Hp : Hand.cards (Hand.mk [Card.mk Spades Ace; Card.mk Hearts Nine;
                                    Card.mk Clubs Five] 0)
               ≡ₚ Hand.cards (Hand.mk [Card.mk Clubs Five; Card.mk Spades Ace;
                                       Card.mk Hearts Nine] 70)).
  { simpl. rewrite (perm_swap (Card.mk Spades Ace) (Card.mk Clubs Five)).
    apply perm_skip. apply perm_swap. }
  split; [exact Hp|].
  exact (proj1 (X2_value_order_independent _ _ Hp)).
Defined.

Lemma busted_iff_hard (h : Hand.t) :
  Hand.is_busted h = true <-> 21 < hard_total (Hand.cards h).
Proof.
  unfold Hand.is_busted. rewrite Z.ltb_lt, value_closed_form.
  destruct (_ && _) eqn:E; [|reflexivity].
  apply andb_true_iff in E. destruct E as [_ E]. apply Z.leb_le in E. lia.
Qed.

Lemma busted_stays_busted (h : Hand.t) (c : Card.t) :
  Hand.is_busted h = true -> Hand.is_busted (Hand.add_card c h) = true.
Proof.
  rewrite !busted_iff_hard. simpl.
  pose proof (hard_total_snoc (Hand.cards h) c). lia.
Qed.

(** X3: a hand is busted exactly when it is above 21 with every ace
    counted as 1, its value is then that total, and no card added to a
    busted hand brings it back. *)
Theorem X3_bust_is_final (h : Hand.t) :
  (Hand.is_busted h = true <-> 21 < hard_total (Hand.cards h))
  /\ (Hand.is_busted h = true -> Hand.value h = hard_total (Hand.cards h))
  /\ (Hand.is_busted h = true ->
      forall c, Hand.is_busted (Hand.add_card c h) = true).
Proof.
  split; [apply busted_iff_hard|]. split.
  - intros Hb. apply busted_iff_hard in Hb. rewrite value_closed_form.
    destruct (_ && _) eqn:E; [|reflexivity].
    apply andb_true_iff in E. destruct E as [_ E]. apply Z.leb_le in E. lia.
  - intros Hb c. now apply busted_stays_busted.
Qed.

Lemma two_cards_value (c1 c2 : Card.t) (b : Z) :
  4 <= Hand.value (Hand.mk [c1; c2] b) <= 21.
Proof.
  destruct c1 as [s1 r1], c2 as [s2 r2].
  destruct r1, r2; vm_compute; split; discriminate.
Qed.

(** X4: a hand of two cards is worth between 4 and 21: the deal never
    busts a hand. *)
Theorem X4_two_cards_never_bust (h : Hand.t) :
  length (Hand.cards h) = 2%nat ->
  4 <= Hand.value h <= 21 /\ Hand.is_busted h = false.
Proof.
  intros Hl. destruct h as [l b]. simpl in Hl.
  destruct l as [|c1 [|c2 [|c3 l]]]; try discriminate.
  pose proof (two_cards_value c1 c2 b) as H.
  split; [exact H|]. unfold Hand.is_busted. apply Z.ltb_ge. lia.
Qed.

Lemma X4_two_cards_never_bust_witness :
  length (Hand.cards (Hand.mk [Card.mk Spades Ace; Card.mk Hearts Ace] 0)) = 2%nat
  /\ Hand.is_busted (Hand.mk [Card.mk Spades Ace; Card.mk Hearts Ace] 0) = false.
Proof.
  assert (Hl : length (Hand.cards (Hand.mk [Card.mk Spades Ace; Card.mk Hearts Ace] 0))
               = 2%nat) by reflexivity.
  split; [exact Hl|].
  exact (proj2 (X4_two_cards_never_bust _ Hl)).
Defined.

Lemma is_blackjack_pair (c1 c2 : Card.t) (b : Z) :
  Hand.is_blackjack (Hand.mk [c1; c2] b) = natural_pair c1 c2.
Proof.
  destruct c1 as [s1 r1], c2 as [s2 r2].
  destruct r1, r2; reflexivity.
Qed.

(** X5: a hand is a blackjack exactly when it is two cards, an ace and a
    card worth ten (10, J, Q or K), in either order. *)
Theorem X5_blackjack_is_ace_and_ten (h : Hand.t) :
  Hand.is_blackjack h = true
  <-> exists c1 c2, Hand.cards h = [c1; c2] /\ natural_pair c1 c2 = true.
Proof.
  destruct h as [l b]. split.
  - intros H.
    destruct l as [|c1 [|c2 [|c3 l]]];
      try (unfold Hand.is_blackjack in H; simpl in H; discriminate).
    exists c1, c2. split; [reflexivity|]. now rewrite <- (is_blackjack_pair c1 c2 b).
  - intros (c1 & c2 & Hc & Hn). simpl in Hc. subst l.
    now rewrite is_blackjack_pair.
Qed.

(** The test of [_handle_blackjack] on a dealer holding two cards: an
    up-card worth at least 10 with a hand worth 21 is a dealer
    blackjack, and the other way round. *)
Lemma dealer_peek_is_blackjack (up hole : Card.t) (b : Z) :
  (10 <=? Card.value up)
  && ((length (Hand.cards (Hand.mk [up; hole] b)) =? 2)%nat
      && (Hand.value (Hand.mk [up; hole] b) =? 21))
  = Hand.is_blackjack (Hand.mk [up; hole] b).
Proof.
  destruct up as [s1 r1], hole as [s2 r2].
  destruct r1, r2; reflexivity.
Qed.

(** ** Shoe *)

Lemma one_deck_complete (c : Card.t) : In c Deck.one_deck.
Proof.
  destruct c as [s r].
  destruct s, r; vm_compute; repeat (first [left; reflexivity | right]).
Qed.

Lemma one_deck_NoDup : List.NoDup Deck.one_deck.
Proof.
  unfold Deck.one_deck, Deck.suits, Deck.ranks. simpl.
  repeat (apply List.NoDup_cons; [simpl; intuition discriminate|]).
  apply List.NoDup_nil.
Qed.

Lemma init_cards_perm (n : Z) (r : Deck.Rng) :
  Deck.cards (Deck.init n r) ≡ₚ List.concat (repeat Deck.one_deck (Z.to_nat n)).
Proof. unfold Deck.init. rewrite shuffle_perm. reflexivity. Qed.

Lemma init_length (n : Z) (r : Deck.Rng) :
  length (Deck.cards (Deck.init n r)) = (52 * Z.to_nat n)%nat.
Proof.
  unfold Deck.init. rewrite shuffle_length, build_deck_length. reflexivity.
Qed.

Lemma init_num_decks (n : Z) (r : Deck.Rng) : Deck.num_decks (Deck.init n r) = n.
Proof. unfold Deck.init. now rewrite shuffle_num_decks. Qed.

(** X6: a new shoe [Deck(n)] holds, in some order, [n] copies of the full
    deck, which has each of the 52 suit and rank pairs exactly once; so
    it holds [52 * n] cards, and none for [n <= 0]. *)
Theorem X6_new_shoe_is_n_full_decks (n : Z) (r : Deck.Rng) :
  Deck.cards (Deck.init n r) ≡ₚ List.concat (repeat Deck.one_deck (Z.to_nat n))
  /\ (forall c : Card.t, In c Deck.one_deck)
  /\ List.NoDup Deck.one_deck
  /\ length Deck.one_deck = 52%nat
  /\ Deck.len (Deck.init n r) = 52 * Z.max 0 n
  /\ Deck.num_decks (Deck.init n r) = n.
Proof.
  split; [apply init_cards_perm|]. split; [apply one_deck_complete|].
  split; [apply one_deck_NoDup|]. split; [reflexivity|].
  split; [|apply init_num_decks].
  unfold Deck.len. rewrite init_length. lia.
Qed.

Lemma draw_last (d : Deck.t) (l : list Card.t) (c : Card.t) :
  Deck.cards d = l ++ [c] ->
  Deck.draw d = (Ret c, Deck.mk (Deck.num_decks d) l (Deck.entropy d)).
Proof.
  intros Hc. rewrite draw_unfold.
  assert (Hr : replenished d = d).
  { unfold replenished. rewrite Hc. destruct l; reflexivity. }
  rewrite Hr, Hc, pop_snoc. reflexivity.
Qed.

Lemma draw_many_lifo (cs rest : list Card.t) (n : Z) (e : Deck.Rng) :
  draw_many (length cs) (Deck.mk n (rest ++ rev cs) e)
  = (map Ret cs, Deck.mk n rest e).
Proof.
  revert rest. induction cs as [|c cs IH]; intros rest; simpl.
  - now rewrite app_nil_r.
  - rewrite (draw_last _ (rest ++ rev cs) c) by (simpl; now rewrite app_assoc).
    simpl. now rewrite IH.
Qed.

(** X7: the shoe is dealt from its end: on a shoe that ends with the
    cards [cs] in reverse, that many draws return [cs] in order, leave
    the rest of the shoe as it was, and do not shuffle. *)
Theorem X7_draws_come_off_the_end (cs rest : list Card.t) (n : Z) (e : Deck.Rng) :
  draw_many (length cs) (Deck.mk n (rest ++ rev cs) e)
  = (map Ret cs, Deck.mk n rest e).
Proof. apply draw_many_lifo. Qed.

Lemma draw_many_app (a b : nat) (d : Deck.t) :
  draw_many (a + b) d
  = (fst (draw_many a d) ++ fst (draw_many b (snd (draw_many a d))),
     snd (draw_many b (snd (draw_many a d)))).
Proof.
  revert d. induction a as [|a IH]; intros d; simpl.
  - now destruct (draw_many b d).
  - destruct (Deck.draw d) as [o d1]. rewrite IH.
    destruct (draw_many a d1) as [os d2]. simpl. reflexivity.
Qed.

Lemma draws_leave_app (a b : nat) (d : Deck.t) (m m' : nat) :
  draws_leave a d m ->
  draws_leave b (snd (draw_many a d)) m' ->
  draws_leave (a + b) d m'.
Proof.
  intros (Ha & Hna & _) (Hb & Hnb & Hl).
  unfold draws_leave. rewrite draw_many_app. simpl.
  split; [now apply Forall_app|]. split; [congruence|exact Hl].
Qed.

Lemma draws_leave_within (j : nat) (d : Deck.t) :
  (j <= length (Deck.cards d))%nat ->
  draws_leave j d (length (Deck.cards d) - j).
Proof.
  intros Hj. destruct d as [n l e]. simpl in *.
  pose proof (draw_many_lifo (rev (drop (length l - j) l))
                (take (length l - j) l) n e) as H.
  rewrite rev_involutive, take_drop, length_rev, length_drop in H.
  replace (length l - (length l - j))%nat with j in H by lia.
  unfold draws_leave. rewrite H. simpl.
  split.
  - apply List.Forall_forall. intros o Ho. apply in_map_iff in Ho.
    destruct Ho as (c & <- & _). now exists c.
  - split; [reflexivity|]. rewrite length_take. lia.
Qed.

Lemma draws_leave_from_empty (j : nat) (d : Deck.t) :
  1 <= Deck.num_decks d -> Deck.cards d = [] ->
  (1 <= j <= 52 * Z.to_nat (Deck.num_decks d))%nat ->
  draws_leave j d (52 * Z.to_nat (Deck.num_decks d) - j).
Proof.
  intros Hn Hc Hj.
  destruct (draw_supplies 0 d) as (c & d' & Hd & Hr & Hnd & _); [now right|].
  assert (Hl : length (Deck.cards d') = (52 * Z.to_nat (Deck.num_decks d) - 1)%nat).
  { apply (f_equal (@length _)) in Hr. unfold replenished in Hr. rewrite Hc in Hr.
    rewrite shuffle_length, build_deck_length, length_app in Hr. simpl in Hr. lia. }
  assert (H1 : draws_leave 1 d (52 * Z.to_nat (Deck.num_decks d) - 1)).
  { unfold draws_leave. simpl. rewrite Hd. simpl.
    split; [constructor; [now exists c|constructor]|]. split; assumption. }
  replace j with (1 + (j - 1))%nat by lia.
  apply (draws_leave_app _ _ _ _ _ H1).
  assert (Hs : snd (draw_many 1 d) = d') by (simpl; now rewrite Hd).
  rewrite Hs.
  replace (52 * Z.to_nat (Deck.num_decks d) - (1 + (j - 1)))%nat
    with (length (Deck.cards d') - (j - 1))%nat by lia.
  apply draws_leave_within. lia.
Qed.

Lemma draws_leave_rounds (q : nat) : forall d : Deck.t,
  1 <= Deck.num_decks d -> Deck.cards d = [] ->
  draws_leave (q * (52 * Z.to_nat (Deck.num_decks d))) d 0.
Proof.
  induction q as [|q IH]; intros d Hn Hc.
  - unfold draws_leave. simpl. rewrite Hc. repeat split. constructor.
  - simpl.
    assert (H1 : draws_leave (52 * Z.to_nat (Deck.num_decks d)) d 0).
    { pose proof (draws_leave_from_empty (52 * Z.to_nat (Deck.num_decks d)) d Hn Hc)
        as H.
      rewrite Nat.sub_diag in H. apply H. lia. }
    apply (draws_leave_app _ _ _ _ _ H1).
    destruct H1 as (_ & Hnd & Hl). apply length_zero_iff_nil in Hl.
    set (d1 := snd (draw_many (52 * Z.to_nat (Deck.num_decks d)) d)) in *.
    replace (Deck.num_decks d) with (Deck.num_decks d1) by exact Hnd.
    apply IH; [lia|exact Hl].
Qed.

Lemma draws_leave_new_shoe (n : Z) (r : Deck.Rng) (q j : nat) :
  1 <= n -> (1 <= j <= 52 * Z.to_nat n)%nat ->
  draws_leave (q * (52 * Z.to_nat n) + j) (Deck.init n r) (52 * Z.to_nat n - j).
Proof.
  intros Hn Hj.
  pose proof (init_length n r) as Hl. pose proof (init_num_decks n r) as Hnd.
  destruct q as [|q].
  - replace (0 * (52 * Z.to_nat n) + j)%nat with j by lia.
    replace (52 * Z.to_nat n - j)%nat
      with (length (Deck.cards (Deck.init n r)) - j)%nat by lia.
    apply draws_leave_within. lia.
  - assert (H1 : draws_leave (52 * Z.to_nat n) (Deck.init n r) 0).
    { pose proof (draws_leave_within (52 * Z.to_nat n) (Deck.init n r)) as H.
      rewrite Hl, Nat.sub_diag in H. apply H. lia. }
    replace (S q * (52 * Z.to_nat n) + j)%nat
      with (52 * Z.to_nat n + (q * (52 * Z.to_nat n) + j))%nat by lia.
    apply (draws_leave_app _ _ _ _ _ H1).
    destruct H1 as (_ & Hnd1 & Hl1). apply length_zero_iff_nil in Hl1.
    set (d1 := snd (draw_many (52 * Z.to_nat n) (Deck.init n r))) in *.
    assert (Hn1 : Deck.num_decks d1 = n) by congruence.
    assert (H2 : draws_leave (q * (52 * Z.to_nat n)) d1 0).
    { rewrite <- Hn1. apply draws_leave_rounds; [lia|exact Hl1]. }
    apply (draws_leave_app _ _ _ _ _ H2).
    destruct H2 as (_ & Hnd2 & Hl2). apply length_zero_iff_nil in Hl2.
    set (d2 := snd (draw_many (q * (52 * Z.to_nat n)) d1)) in *.
    assert (Hn2 : Deck.num_decks d2 = n) by congruence.
    rewrite <- Hn2. apply draws_leave_from_empty; [lia|exact Hl2|].
    rewrite Hn2. exact Hj.
Qed.

(** X8: a new shoe of [n >= 1] decks is rebuilt once every [52 * n]
    draws and never in between: after [q] full passes and [j] more
    draws, [1 <= j <= 52 * n], every draw has returned a card, the
    number of decks is still [n], and [52 * n - j] cards are left. *)
Theorem X8_shoe_cycles_every_52n_draws (n : Z) (r : Deck.Rng) (q j : nat) :
  1 <= n -> (1 <= j <= 52 * Z.to_nat n)%nat ->
  draws_leave (q * (52 * Z.to_nat n) + j) (Deck.init n r) (52 * Z.to_nat n - j).
Proof. apply draws_leave_new_shoe. Qed.

Lemma X8_shoe_cycles_every_52n_draws_witness :
  (1 <= 1 /\ (1 <= 5 <= 52 * Z.to_nat 1)%nat)
  /\ draws_leave (2 * (52 * Z.to_nat 1) + 5) (Deck.init 1 tape_count)
                 (52 * Z.to_nat 1 - 5).
Proof.
  assert (Hn : 1 <= 1) by lia.
  assert (Hj : (1 <= 5 <= 52 * Z.to_nat 1)%nat) by (simpl; lia).
  split; [auto|].
  exact (X8_shoe_cycles_every_52n_draws 1 tape_count 2 5 Hn Hj).
Defined.

(** X20: shuffling loses and duplicates no card: the shuffled shoe is a
    permutation of the shoe before, with the same number of cards and
    the same number of decks, whatever the generator answers. *)
Theorem X20_shuffle_keeps_the_cards (d : Deck.t) :
  Deck.cards (Deck.shuffle d) ≡ₚ Deck.cards d
  /\ length (Deck.cards (Deck.shuffle d)) = length (Deck.cards d)
  /\ Deck.num_decks (Deck.shuffle d) = Deck.num_decks d.
Proof.
  split; [apply shuffle_perm|]. split; [apply shuffle_length|].
  apply shuffle_num_decks.
Qed.

(** ** What every method leaves related *)

(** A relation between engines that is reflexive and transitive and
    holds across each elementary update (a draw from the shoe, a new
    player record of the same name, a new dealer hand, state or result)
    holds across every method, on every exit. *)
Section Frame.

Variable R : t -> t -> Prop.
Hypothesis R_refl : forall g, R g g.
Hypothesis R_trans : forall a b c, R a b -> R b c -> R a c.
Hypothesis R_deck : forall g, R g (set_deck (snd (Deck.draw (deck g))) g).
Hypothesis R_player : forall g p,
  Player.name p = Player.name (player g) -> R g (set_player p g).
Hypothesis R_dealer : forall g h, R g (set_dealer_hand h g).
Hypothesis R_state : forall g s, R g (set_game_state s g).
Hypothesis R_result : forall g r, R g (set_round_result r g).

Lemma preserves_ret {A : Type} (a : A) : preserves R (ret a).
Proof. intros g o g' E. inversion E; subst. apply R_refl. Qed.

Lemma preserves_bind {A B : Type} (m : M A) (k : A -> M B) :
  preserves R m -> (forall a, preserves R (k a)) -> preserves R (bind m k).
Proof.
  intros Hm Hk g o g' E. unfold bind in E.
  destruct (m g) as [[a|e|] g1] eqn:E1.
  - apply (R_trans _ g1); [exact (Hm _ _ _ E1)|exact (Hk a _ _ _ E)].
  - inversion E; subst. exact (Hm _ _ _ E1).
  - inversion E; subst. exact (Hm _ _ _ E1).
Qed.

Lemma preserves_modify (f : t -> t) :
  (forall g, R g (f g)) -> preserves R (modify f).
Proof. intros Hf g o g' E. inversion E; subst. apply Hf. Qed.

Lemma preserves_draw : preserves R draw.
Proof.
  intros g o g' E. unfold draw in E. pose proof (R_deck g) as H.
  destruct (Deck.draw (deck g)) as [o1 d]. inversion E; subst. exact H.
Qed.

Lemma preserves_deal_player : preserves R deal_player.
Proof.
  apply preserves_bind; [apply preserves_draw|].
  intros c. apply preserves_modify. intros g. now apply R_player.
Qed.

Lemma preserves_deal_dealer : preserves R deal_dealer.
Proof.
  apply preserves_bind; [apply preserves_draw|].
  intros c. apply preserves_modify. intros g. apply R_dealer.
Qed.

Lemma preserves_credit (x : Z) : preserves R (credit x).
Proof. apply preserves_modify. intros g. now apply R_player. Qed.

Lemma preserves_settle (r : RoundResult) (x : Z) :
  preserves R (bind (modify (set_round_result (Some r))) (fun _ => credit x)).
Proof.
  apply preserves_bind; [apply preserves_modify; intros g; apply R_result|].
  intros _. apply preserves_credit.
Qed.

Lemma preserves_handle_blackjack : preserves R _handle_blackjack.
Proof.
  intros g o g' E. unfold _handle_blackjack in E.
  destruct (Hand.cards (dealer_hand g)) as [|up rest].
  - inversion E; subst. apply R_refl.
  - revert E. apply preserves_bind.
    + destruct (10 <=? Card.value up); [destruct (_ && _)|]; apply preserves_settle.
    + intros _. apply preserves_modify. intros g0. apply R_state.
Qed.

Lemma preserves_start_round : preserves R _start_round.
Proof.
  unfold _start_round.
  apply preserves_bind;
    [apply preserves_modify; intros g; now apply R_player|intros _].
  apply preserves_bind; [apply preserves_modify; intros g; apply R_dealer|intros _].
  apply preserves_bind; [apply preserves_deal_player|intros _].
  apply preserves_bind; [apply preserves_deal_dealer|intros _].
  apply preserves_bind; [apply preserves_deal_player|intros _].
  apply preserves_bind; [apply preserves_deal_dealer|intros _].
  apply preserves_bind; [apply preserves_modify; intros g; apply R_state|intros _].
  intros g o g' E. destruct (Hand.is_blackjack _).
  - exact (preserves_handle_blackjack _ _ _ E).
  - inversion E; subst. apply R_refl.
Qed.

Lemma preserves_place_bet (amount : Z) : preserves R (place_bet amount).
Proof.
  intros g o g' E. unfold place_bet in E.
  destruct (negb _); [inversion E; subst; apply R_refl|].
  destruct (_ || _); [inversion E; subst; apply R_refl|].
  unfold Player.place_bet in E.
  destruct (amount <=? Player.bankroll (player g));
    [|inversion E; subst; apply R_refl].
  match type of E with
  | context [ set_player ?p g ] =>
      apply (R_trans _ (set_player p g)); [now apply R_player|]
  end.
  revert E. apply preserves_bind; [apply preserves_start_round|].
  intros _. apply preserves_ret.
Qed.

Lemma preserves_hit : preserves R hit.
Proof.
  intros g o g' E. unfold hit in E.
  destruct (negb _); [inversion E; subst; apply R_refl|].
  revert E. apply preserves_bind; [apply preserves_deal_player|intros _].
  apply preserves_bind; [|intros _; apply preserves_ret].
  intros g0 o0 g0' E. destruct (Hand.is_busted _).
  - revert E. apply preserves_bind;
      [apply preserves_modify; intros g1; apply R_result|intros _].
    apply preserves_modify. intros g1. apply R_state.
  - inversion E; subst. apply R_refl.
Qed.

Lemma preserves_determine_round_result : preserves R _determine_round_result.
Proof.
  intros g o g' E. unfold _determine_round_result in E.
  revert E. apply preserves_bind.
  - destruct (Hand.is_busted (Player.hand (player g)));
      [apply preserves_modify; intros g0; apply R_result|].
    destruct (Hand.is_busted (dealer_hand g)); [apply preserves_settle|].
    destruct (_ >? _); [apply preserves_settle|].
    destruct (_ <? _); [apply preserves_modify; intros g0; apply R_result|].
    apply preserves_settle.
  - intros _. apply preserves_modify. intros g0. apply R_state.
Qed.

Lemma preserves_dealer_loop (fuel : nat) : preserves R (dealer_loop fuel).
Proof.
  induction fuel as [|fuel IH]; intros g o g' E; simpl in E.
  - destruct (_ <? 17); inversion E; subst; apply R_refl.
  - destruct (_ <? 17); [|inversion E; subst; apply R_refl].
    revert E. apply preserves_bind; [apply preserves_deal_dealer|].
    intros _. exact IH.
Qed.

Lemma preserves_stand : preserves R stand.
Proof.
  intros g o g' E. unfold stand in E.
  destruct (negb _); [inversion E; subst; apply R_refl|].
  revert E. apply preserves_bind; [|intros _; apply preserves_ret].
  unfold _dealer_play.
  apply preserves_bind; [apply preserves_modify; intros g0; apply R_state|intros _].
  apply preserves_bind; [apply preserves_dealer_loop|intros _].
  apply preserves_determine_round_result.
Qed.

Lemma preserves_start_new_round : preserves R start_new_round.
Proof.
  intros g o g' E. unfold start_new_round in E.
  destruct (negb _); [inversion E; subst; apply R_refl|].
  revert E. apply preserves_bind;
    [apply preserves_modify; intros g0; apply R_state|intros _].
  apply preserves_modify. intros g0. apply R_result.
Qed.

Lemma frame_step (o : op) (g : t) : R g (step o g).
Proof.
  destruct o as [amount| | | |]; simpl.
  - destruct (place_bet amount g) as [r g'] eqn:E.
    exact (preserves_place_bet amount _ _ _ E).
  - destruct (hit g) as [r g'] eqn:E. exact (preserves_hit _ _ _ E).
  - destruct (stand g) as [r g'] eqn:E. exact (preserves_stand _ _ _ E).
  - destruct (start_new_round g) as [r g'] eqn:E.
    exact (preserves_start_new_round _ _ _ E).
  - apply R_refl.
Qed.

Lemma frame_run (ops : list op) (g : t) : R g (run ops g).
Proof.
  induction ops as [|o ops IH] using rev_ind; [apply R_refl|].
  rewrite run_snoc. apply (R_trans _ (run ops g)); [exact IH|apply frame_step].
Qed.

End Frame.

(** ** Settings and shoe size *)

Lemma draw_num_decks (d : Deck.t) :
  Deck.num_decks (snd (Deck.draw d)) = Deck.num_decks d.
Proof.
  destruct (draw_cases d) as [(c & d' & H & Hn)|(d' & H & Hn & _)];
    rewrite H; exact Hn.
Qed.

Lemma same_config_run (ops : list op) (g : t) : same_config g (run ops g).
Proof.
  apply (frame_run same_config); unfold same_config; simpl.
  - auto.
  - intros a b c (? & ? & ? & ?) (? & ? & ? & ?). repeat split; congruence.
  - intros g0. repeat split. apply draw_num_decks.
  - intros g0 p Hp. auto.
  - auto.
  - auto.
  - auto.
Qed.

(** X9: no run of public operations changes the settings of an engine:
    the bet limits, the number of decks and the player's name stay as
    they were, also across calls that raise. *)
Theorem X9_settings_never_change (ops : list op) (g : t) :
  min_bet (run ops g) = min_bet g
  /\ max_bet (run ops g) = max_bet g
  /\ Deck.num_decks (deck (run ops g)) = Deck.num_decks (deck g)
  /\ Player.name (player (run ops g)) = Player.name (player g).
Proof. apply same_config_run. Qed.

Lemma draw_bounded (d : Deck.t) : shoe_bounded d -> shoe_bounded (snd (Deck.draw d)).
Proof.
  intros Hb. rewrite draw_unfold.
  assert (Hr : shoe_bounded (replenished d)).
  { unfold replenished. destruct (Deck.cards d) eqn:E; [|exact Hb].
    unfold shoe_bounded.
    rewrite shuffle_length, shuffle_num_decks, build_deck_length. simpl. lia. }
  destruct (pop (Deck.cards (replenished d))) as [[c rest]|] eqn:E; simpl;
    [|exact Hr].
  apply pop_Some in E. unfold shoe_bounded in *. simpl.
  rewrite replenished_num_decks in Hr. rewrite E, length_app in Hr. simpl in Hr. lia.
Qed.

Lemma shoe_bounded_run (ops : list op) (g : t) :
  shoe_bounded (deck g) -> shoe_bounded (deck (run ops g)).
Proof.
  apply (frame_run (fun a b => shoe_bounded (deck a) -> shoe_bounded (deck b)));
    simpl; auto.
  intros g0. apply draw_bounded.
Qed.

(** X10: the shoe of an engine built with [n] decks never holds more
    than [52 * n] cards (none when [n <= 0]), whatever is played. *)
Theorem X10_shoe_never_overfull
    (n lo hi : Z) (r : Deck.Rng) (b : Z) (ops : list op) :
  0 <= Deck.len (deck (run ops (set_player (Player.init "Player"%string b)
                                           (init n lo hi r))))
    <= 52 * Z.max 0 n.
Proof.
  set (g0 := set_player (Player.init "Player"%string b) (init n lo hi r)).
  assert (Hb : shoe_bounded (deck g0)).
  { unfold shoe_bounded. simpl. rewrite init_length, init_num_decks. lia. }
  pose proof (shoe_bounded_run ops g0 Hb) as H.
  destruct (same_config_run ops g0) as (_ & _ & Hn & _).
  unfold shoe_bounded in H. rewrite Hn in H. simpl in H.
  rewrite init_num_decks in H. unfold Deck.len. lia.
Qed.

(** ** Exits of a bet *)

(** Closes the raising exits of [start_round_exits]. *)
Ltac start_round_raised :=
  intros E; inversion E; subst; clear E;
  left; eexists; split; [reflexivity|]; repeat split.

Lemma start_round_exits (g : t) : forall o g',
  _start_round g = (o, g') ->
  (exists e, o = Raise e
             /\ game_state g' = game_state g
             /\ round_result g' = round_result g
             /\ player_bet g' = 0)
  \/ (o = Ret tt
      /\ exists c1 c2 c3 c4,
           Player.hand (player g') = Hand.mk [c1; c3] 0
           /\ dealer_hand g' = Hand.mk [c2; c4] 0
           /\ (Hand.is_blackjack (Hand.mk [c1; c3] 0) = false ->
               game_state g' = PLAYER_TURN /\ round_result g' = round_result g)
           /\ (Hand.is_blackjack (Hand.mk [c1; c3] 0) = true ->
               game_state g' = ROUND_OVER
               /\ round_result g' =
                  Some (if Hand.is_blackjack (Hand.mk [c2; c4] 0)
                        then TIE else BLACKJACK))).
Proof.
  intros o g'.
  destruct (draw_cases (deck g)) as [(c1 & d1 & H1 & N1)|(d1 & H1 & N1 & L1)].
  2:{ unfold _start_round, deal_player, deal_dealer, draw, bind, modify. simpl.
      rewrite H1. simpl. start_round_raised. }
  destruct (draw_cases d1) as [(c2 & d2 & H2 & N2)|(d2 & H2 & N2 & L2)].
  2:{ unfold _start_round, deal_player, deal_dealer, draw, bind, modify. simpl.
      rewrite H1. simpl. rewrite H2. simpl. start_round_raised. }
  destruct (draw_cases d2) as [(c3 & d3 & H3 & N3)|(d3 & H3 & N3 & L3)].
  2:{ unfold _start_round, deal_player, deal_dealer, draw, bind, modify. simpl.
      rewrite H1. simpl. rewrite H2. simpl. rewrite H3. simpl. start_round_raised. }
  destruct (draw_cases d3) as [(c4 & d4 & H4 & N4)|(d4 & H4 & N4 & L4)].
  2:{ unfold _start_round, deal_player, deal_dealer, draw, bind, modify. simpl.
      rewrite H1. simpl. rewrite H2. simpl. rewrite H3. simpl. rewrite H4. simpl.
      start_round_raised. }
  rewrite (start_round_dealt g _ _ _ _ _ _ _ _ H1 H2 H3 H4).
  destruct (Hand.is_blackjack (Hand.mk [c1; c3] 0)) eqn:Ebj.
  - rewrite (handle_blackjack_spec (dealt g c1 c2 c3 c4 d4) c2 [c4] eq_refl).
    intros E; inversion E; subst; clear E.
    right. split; [reflexivity|]. exists c1, c2, c3, c4. simpl.
    split; [reflexivity|]. split; [reflexivity|].
    split; [intros Hf; congruence|].
    intros _. split; [reflexivity|].
    pose proof (dealer_peek_is_blackjack c2 c4 0) as Hp. simpl in Hp.
    unfold dealer_cards. simpl. now rewrite Hp.
  - intros E; inversion E; subst; clear E.
    right. split; [reflexivity|]. exists c1, c2, c3, c4. simpl.
    split; [reflexivity|]. split; [reflexivity|].
    split; [auto|intros Hf; congruence].
Qed.

Lemma place_bet_exits (amount : Z) (g : t) : forall o g',
  place_bet amount g = (o, g') ->
  (o = Ret false /\ g' = g)
  \/ (game_state g = BETTING
      /\ ((exists e, o = Raise e
                     /\ game_state g' = BETTING
                     /\ round_result g' = round_result g
                     /\ player_bet g' = 0)
          \/ (o = Ret true
              /\ player_bet g' = 0
              /\ exists c1 c2 c3 c4,
                   Player.hand (player g') = Hand.mk [c1; c3] 0
                   /\ dealer_hand g' = Hand.mk [c2; c4] 0
                   /\ (Hand.is_blackjack (Hand.mk [c1; c3] 0) = false ->
                       game_state g' = PLAYER_TURN
                       /\ round_result g' = round_result g)
                   /\ (Hand.is_blackjack (Hand.mk [c1; c3] 0) = true ->
                       game_state g' = ROUND_OVER
                       /\ round_result g' =
                          Some (if Hand.is_blackjack (Hand.mk [c2; c4] 0)
                                then TIE else BLACKJACK))))).
Proof.
  intros o g' E.
  destruct (place_bet_cases amount g) as [Hr|(Hs & Hm & Hb)].
  - left. rewrite (place_bet_rejected _ _ Hr) in E. inversion E; auto.
  - right. split; [exact Hs|].
    rewrite (place_bet_accepted _ _ Hs Hm Hb) in E. unfold bind in E.
    destruct (_start_round _) as [o1 g1] eqn:E1.
    apply start_round_exits in E1. simpl in E1.
    destruct E1 as [(e & -> & Hst & Hrr & Hbet)|(-> & c1 & c2 & c3 & c4 & H)].
    + inversion E; subst. left. exists e. rewrite Hs in Hst. auto.
    + unfold ret in E. inversion E; subst. right.
      split; [reflexivity|].
      destruct H as (Hp & Hd & Hx). split.
      * unfold player_bet. now rewrite Hp.
      * exists c1, c2, c3, c4. auto.
Qed.

(** X11: when a bet is accepted and dealt, player and dealer hold two
    cards each.  The round goes on to PLAYER_TURN unless the player holds
    a blackjack; then it is over at once, as a TIE exactly when the
    dealer's two cards are a blackjack too, and as a BLACKJACK otherwise:
    the test on the dealer's up-card lets no dealer blackjack through. *)
Theorem X11_natural_is_tie_iff_dealer_natural (amount : Z) (g g' : t) :
  place_bet amount g = (Ret true, g') ->
  length (player_cards g') = 2%nat
  /\ length (dealer_cards g') = 2%nat
  /\ (Hand.is_blackjack (Player.hand (player g')) = false ->
      game_state g' = PLAYER_TURN)
  /\ (Hand.is_blackjack (Player.hand (player g')) = true ->
      game_state g' = ROUND_OVER
      /\ round_result g' =
         Some (if Hand.is_blackjack (dealer_hand g') then TIE else BLACKJACK)).
Proof.
  intros E. apply place_bet_exits in E.
  destruct E as [[E _]|(_ & [(e & E & _)|(_ & _ & c1 & c2 & c3 & c4 & Hp & Hd & Hn & Hy)])];
    try discriminate.
  unfold player_cards, dealer_cards. rewrite Hp, Hd. simpl.
  split; [reflexivity|]. split; [reflexivity|]. split.
  - intros H. now apply Hn.
  - exact Hy.
Qed.

Lemma X11_natural_is_tie_iff_dealer_natural_witness :
  place_bet 100 engine_two_naturals
  = (Ret true, snd (place_bet 100 engine_two_naturals))
  /\ length (dealer_cards (snd (place_bet 100 engine_two_naturals))) = 2%nat.
Proof.
  assert (E : place_bet 100 engine_two_naturals
              = (Ret true, snd (place_bet 100 engine_two_naturals)))
    by (vm_compute; reflexivity).
  split; [exact E|].
  exact (proj1 (proj2 (X11_natural_is_tie_iff_dealer_natural 100 _ _ E))).
Defined.

(** ** The state machine between calls *)

Lemma transition_stay (o : op) (s : GameState) :
  accepts o s = false -> transition o s s = true.
Proof. destruct o, s; simpl; congruence. Qed.

Lemma step_well_formed (o : op) (g : t) :
  well_formed g -> playable g ->
  well_formed (step o g)
  /\ transition o (game_state g) (game_state (step o g)) = true.
Proof.
  intros [Hbet Hwf] Hplay.
  assert (Hnd : game_state g <> BETTING -> 1 <= Deck.num_decks (deck g)).
  { intros Hs. destruct Hplay as [H|[_ H]]; [exact H|contradiction]. }
  destruct o as [amount| | | |]; simpl.
  - destruct (place_bet amount g) as [o g'] eqn:E. simpl.
    apply place_bet_exits in E.
    destruct E as [[_ ->]|(Hs & [(e & _ & Hs' & Hrr & Hb')
                               |(_ & Hb' & c1 & c2 & c3 & c4 & Hp & Hd & Hn & Hy)])].
    + split; [now split|]. destruct (game_state g); reflexivity.
    + rewrite Hs in *. rewrite Hs'. split; [|reflexivity].
      split; [exact Hb'|]. rewrite Hs'. congruence.
    + rewrite Hs in *.
      destruct (Hand.is_blackjack (Hand.mk [c1; c3] 0)) eqn:Ebj.
      * destruct (Hy eq_refl) as [Hs' Hrr]. rewrite Hs'. split; [|reflexivity].
        split; [exact Hb'|]. rewrite Hs', Hrr. discriminate.
      * destruct (Hn eq_refl) as [Hs' Hrr]. rewrite Hs'. split; [|reflexivity].
        split; [exact Hb'|]. rewrite Hs'.
        unfold dealer_cards, player_cards. rewrite Hp, Hd. simpl.
        split; [congruence|]. split; [reflexivity|]. split; [lia|].
        apply (two_cards_value c1 c3 0).
  - destruct (GameState_eqb (game_state g) PLAYER_TURN) eqn:Es.
    + apply GameState_eqb_eq in Es. rewrite Es in *.
      destruct Hwf as (Hrr & Hdl & Hpl & Hv).
      destruct (draw_supplies 0 (deck g)) as (c & d & Hd & _).
      { right. apply Hnd. discriminate. }
      rewrite (hit_accepted g c d Es Hd). simpl.
      destruct (21 <? cards_value (player_cards g ++ [c])) eqn:E; simpl.
      * split; [|reflexivity]. split; [exact Hbet|]. simpl. discriminate.
      * split; [|reflexivity]. split; [exact Hbet|]. simpl.
        apply Z.ltb_ge in E. unfold player_cards, dealer_cards in *. simpl.
        split; [exact Hrr|]. split; [exact Hdl|].
        split; [rewrite length_app; simpl; lia|].
        rewrite value_cards_value. exact E.
    + apply GameState_eqb_neq in Es. rewrite (hit_rejected g Es). simpl.
      split; [now split|]. destruct (game_state g); reflexivity.
  - destruct (GameState_eqb (game_state g) PLAYER_TURN) eqn:Es.
    + apply GameState_eqb_eq in Es.
      destruct (stand_accepted g Es)
        as (o & g' & drawn & E & Hh & _ & _ & _ & _ & _ & _ & Hres).
      rewrite E. simpl.
      destruct Hres as [(_ & Hs' & _ & Hrr & _)|(e & _ & Hle & _)].
      * rewrite Es, Hs'. split; [|reflexivity].
        split; [unfold player_bet in *; now rewrite Hh|].
        rewrite Hs', Hrr. discriminate.
      * assert (1 <= Deck.num_decks (deck g)) by (apply Hnd; rewrite Es; discriminate).
        lia.
    + apply GameState_eqb_neq in Es. rewrite (stand_rejected g Es). simpl.
      split; [now split|]. destruct (game_state g); try reflexivity. contradiction.
  - rewrite start_new_round_spec. simpl.
    destruct (GameState_eqb (game_state g) ROUND_OVER) eqn:Es; simpl.
    + apply GameState_eqb_eq in Es. rewrite Es. split; [|reflexivity].
      split; [exact Hbet|]. reflexivity.
    + apply GameState_eqb_neq in Es.
      split; [now split|]. destruct (game_state g); try reflexivity. contradiction.
  - split; [now split|]. destruct (game_state g); reflexivity.
Qed.

Lemma reachable_well_formed (g : t) : reachable g -> well_formed g.
Proof.
  induction 1 as [n lo hi r b|o g Hr IH].
  - split; reflexivity.
  - apply step_well_formed; [exact IH|now apply reachable_playable].
Qed.

(** X12: between two calls an engine is only ever in BETTING,
    PLAYER_TURN or ROUND_OVER: DEALER_TURN is entered and left inside
    [stand] and GAME_OVER is never set.  A result is stored exactly in
    ROUND_OVER, and the bet recorded in the player's hand is 0. *)
Theorem X12_states_between_calls (g : t) :
  reachable g ->
  (game_state g = BETTING \/ game_state g = PLAYER_TURN
   \/ game_state g = ROUND_OVER)
  /\ (round_result g <> None <-> game_state g = ROUND_OVER)
  /\ player_bet g = 0.
Proof.
  intros Hr. destruct (reachable_well_formed g Hr) as [Hbet Hwf].
  destruct (game_state g); try contradiction.
  - split; [auto|]. split; [|exact Hbet]. split; [congruence|discriminate].
  - destruct Hwf as (Hrr & _).
    split; [auto|]. split; [|exact Hbet]. split; [congruence|discriminate].
  - split; [auto|]. split; [|exact Hbet]. split; auto.
Qed.

Lemma X12_states_between_calls_witness :
  reachable engine_in_round
  /\ (round_result engine_in_round <> None
      <-> game_state engine_in_round = ROUND_OVER).
Proof.
  assert (Hr : reachable engine_in_round).
  { apply reach_step. apply (reach_init 1 10 500 tape_count 1000). }
  split; [exact Hr|].
  exact (proj1 (proj2 (X12_states_between_calls engine_in_round Hr))).
Defined.

(** X13: every public operation moves a reachable engine along the state
    machine and nowhere else: a bet from BETTING to PLAYER_TURN or
    ROUND_OVER, a hit from PLAYER_TURN to ROUND_OVER or not at all, a
    stand from PLAYER_TURN to ROUND_OVER, a new round from ROUND_OVER to
    BETTING; every other call leaves the state where it is. *)
Theorem X13_moves_follow_state_machine (o : op) (g : t) :
  reachable g ->
  transition o (game_state g) (game_state (step o g)) = true.
Proof.
  intros Hr. apply step_well_formed;
    [now apply reachable_well_formed|now apply reachable_playable].
Qed.

Lemma X13_moves_follow_state_machine_witness :
  reachable engine_in_round
  /\ transition Stand (game_state engine_in_round)
                (game_state (step Stand engine_in_round)) = true.
Proof.
  assert (Hr : reachable engine_in_round).
  { apply reach_step. apply (reach_init 1 10 500 tape_count 1000). }
  split; [exact Hr|].
  exact (X13_moves_follow_state_machine Stand engine_in_round Hr).
Defined.

Lemma player_turn_live (g : t) :
  reachable g -> game_state g = PLAYER_TURN ->
  Hand.value (Player.hand (player g)) <= 21
  /\ Hand.is_busted (Player.hand (player g)) = false
  /\ (2 <= length (player_cards g) <= 21)%nat
  /\ length (dealer_cards g) = 2%nat
  /\ round_result g = None.
Proof.
  intros Hr Hs. destruct (reachable_well_formed g Hr) as [_ Hwf].
  rewrite Hs in Hwf. destruct Hwf as (Hrr & Hdl & Hpl & Hv).
  split; [exact Hv|]. split; [unfold Hand.is_busted; apply Z.ltb_ge; lia|].
  split; [|auto]. split; [exact Hpl|].
  pose proof (hard_total_ge_length (player_cards g)).
  pose proof (value_ge_hard (Player.hand (player g))).
  unfold player_cards in *. lia.
Qed.

(** X14: during the player's turn the player's hand is never busted: it
    holds between 2 and 21 cards worth at most 21, the dealer holds
    exactly two cards, and no result is stored. *)
Theorem X14_player_turn_hand_is_live (g : t) :
  reachable g -> game_state g = PLAYER_TURN ->
  Hand.value (Player.hand (player g)) <= 21
  /\ Hand.is_busted (Player.hand (player g)) = false
  /\ (2 <= length (player_cards g) <= 21)%nat
  /\ length (dealer_cards g) = 2%nat
  /\ round_result g = None.
Proof. apply player_turn_live. Qed.

Lemma X14_player_turn_hand_is_live_witness :
  reachable engine_in_round
  /\ game_state engine_in_round = PLAYER_TURN
  /\ Hand.value (Player.hand (player engine_in_round)) <= 21.
Proof.
  assert (Hr : reachable engine_in_round).
  { apply reach_step. apply (reach_init 1 10 500 tape_count 1000). }
  assert (Hs : game_state engine_in_round = PLAYER_TURN)
    by (vm_compute; reflexivity).
  split; [exact Hr|]. split; [exact Hs|].
  exact (proj1 (X14_player_turn_hand_is_live engine_in_round Hr Hs)).
Defined.

(** X15: [get_game_info] changes nothing, and on a reachable engine its
    two flags agree: the player can hit exactly when the player can
    stand, that is in PLAYER_TURN; the bust test in [can_hit] never
    decides. *)
Theorem X15_can_hit_is_can_stand (g : t) :
  reachable g ->
  exists i,
    get_game_info g = (Ret i, g)
    /\ info_can_hit i = info_can_stand i
    /\ (info_can_stand i = true <-> game_state g = PLAYER_TURN).
Proof.
  intros Hr. eexists. split; [reflexivity|]. simpl.
  split; [|apply GameState_eqb_eq].
  destruct (GameState_eqb (game_state g) PLAYER_TURN) eqn:Es; [|reflexivity].
  apply GameState_eqb_eq in Es.
  destruct (player_turn_live g Hr Es) as (_ & Hb & _).
  now rewrite Hb.
Qed.

Lemma X15_can_hit_is_can_stand_witness :
  reachable engine_in_round
  /\ exists i, get_game_info engine_in_round = (Ret i, engine_in_round)
               /\ info_can_hit i = info_can_stand i.
Proof.
  assert (Hr : reachable engine_in_round).
  { apply reach_step. apply (reach_init 1 10 500 tape_count 1000). }
  split; [exact Hr|].
  destruct (X15_can_hit_is_can_stand engine_in_round Hr) as (i & E & H & _).
  exists i. split; [exact E|exact H].
Defined.

(** ** The end of a stand *)

Lemma cards_value_snoc_upper (l : list Card.t) (c : Card.t) :
  cards_value (l ++ [c]) <= Z.max 21 (cards_value l + 10).
Proof.
  unfold cards_value. rewrite (value_closed_form (Hand.mk (l ++ [c]) 0)). simpl.
  pose proof (value_ge_hard (Hand.mk l 0)) as Hh. simpl in Hh.
  pose proof (hard_total_snoc_upper l c).
  destruct (_ && _) eqn:E.
  - apply andb_true_iff in E. destruct E as [_ E]. apply Z.leb_le in E. lia.
  - lia.
Qed.

Lemma drew_below_17_upper (g g' : t) (drawn : list Card.t) :
  drew_below_17 g g' drawn ->
  Hand.value (dealer_hand g) <= 21 ->
  Hand.value (dealer_hand g') <= 26.
Proof.
  intros [Hc Hpre] Hv. rewrite !value_cards_value in *.
  fold (dealer_cards g) in Hv. fold (dealer_cards g'). rewrite Hc.
  destruct drawn as [|c drawn _] using rev_ind.
  - rewrite app_nil_r. lia.
  - specialize (Hpre (length drawn)). rewrite length_app in Hpre. simpl in Hpre.
    rewrite take_app_length in Hpre.
    rewrite app_assoc.
    pose proof (cards_value_snoc_upper (dealer_cards g ++ drawn) c).
    assert (cards_value (dealer_cards g ++ drawn) < 17) by (apply Hpre; lia).
    lia.
Qed.

Lemma stand_on_reachable (g : t) :
  reachable g -> game_state g = PLAYER_TURN ->
  exists g',
    stand g = (Ret true, g')
    /\ 17 <= Hand.value (dealer_hand g') <= 26
    /\ Player.hand (player g') = Player.hand (player g)
    /\ bankroll g' = bankroll g
    /\ round_result g' =
       Some (if 21 <? Hand.value (dealer_hand g') then VICTORY
             else if Hand.value (dealer_hand g') <? Hand.value (Player.hand (player g))
                  then VICTORY
                  else if Hand.value (Player.hand (player g))
                          <? Hand.value (dealer_hand g')
                       then LOSS else TIE).
Proof.
  intros Hr Hs.
  destruct (player_turn_live g Hr Hs) as (Hv & _ & _ & Hdl & _).
  destruct (reachable_well_formed g Hr) as [Hbet _].
  assert (Hn : 1 <= Deck.num_decks (deck g)).
  { apply reachable_in_round; [exact Hr|]. rewrite Hs. discriminate. }
  destruct (stand_accepted g Hs)
    as (o & g' & drawn & E & Hh & _ & _ & _ & _ & Hdr & _ & Hres).
  destruct Hres as [(-> & _ & H17 & Hrr & Hbank)|(e & _ & Hle & _)]; [|lia].
  exists g'. split; [exact E|].
  assert (Hd21 : Hand.value (dealer_hand g) <= 21).
  { destruct (dealer_hand g) as [l b] eqn:Ed. unfold dealer_cards in Hdl.
    rewrite Ed in Hdl. simpl in Hdl.
    destruct l as [|c1 [|c2 [|c3 l]]]; try discriminate.
    apply two_cards_value. }
  split; [split; [exact H17|exact (drew_below_17_upper g g' drawn Hdr Hd21)]|].
  split; [exact Hh|].
  unfold settlement in Hrr, Hbank. rewrite Hbet in Hbank.
  assert (E21 : (21 <? Hand.value (Player.hand (player g))) = false)
    by (apply Z.ltb_ge; exact Hv).
  rewrite E21 in Hrr, Hbank.
  split.
  - destruct (21 <? Hand.value (dealer_hand g')); simpl in Hbank; [lia|].
    destruct (Hand.value (dealer_hand g') <? Hand.value (Player.hand (player g)));
      simpl in Hbank; [lia|].
    destruct (Hand.value (Player.hand (player g)) <? Hand.value (dealer_hand g'));
      simpl in Hbank; lia.
  - rewrite Hrr.
    destruct (21 <? Hand.value (dealer_hand g')); [reflexivity|].
    destruct (Hand.value (dealer_hand g') <? Hand.value (Player.hand (player g)));
      [reflexivity|].
    destruct (Hand.value (Player.hand (player g)) <? Hand.value (dealer_hand g'));
      reflexivity.
Qed.

(** X16: a stand in a reachable engine ends with the dealer between 17
    and 26.  The player's hand is as it was and never busted there, so
    the result is never BUSTED: VICTORY when the dealer is above 21 or
    below the player, LOSS when the dealer is above the player, TIE when
    they are equal.  The bankroll is the same after as before, whatever
    the result. *)
Theorem X16_stand_result (g : t) :
  reachable g -> game_state g = PLAYER_TURN ->
  exists g',
    stand g = (Ret true, g')
    /\ 17 <= Hand.value (dealer_hand g') <= 26
    /\ Player.hand (player g') = Player.hand (player g)
    /\ bankroll g' = bankroll g
    /\ round_result g' =
       Some (if 21 <? Hand.value (dealer_hand g') then VICTORY
             else if Hand.value (dealer_hand g') <? Hand.value (Player.hand (player g))
                  then VICTORY
                  else if Hand.value (Player.hand (player g))
                          <? Hand.value (dealer_hand g')
                       then LOSS else TIE).
Proof. apply stand_on_reachable. Qed.

Lemma X16_stand_result_witness :
  reachable engine_in_round
  /\ game_state engine_in_round = PLAYER_TURN
  /\ exists g', stand engine_in_round = (Ret true, g')
                /\ Hand.value (dealer_hand g') <= 26
                /\ bankroll g' = bankroll engine_in_round.
Proof.
  assert (Hr : reachable engine_in_round).
  { apply reach_step. apply (reach_init 1 10 500 tape_count 1000). }
  assert (Hs : game_state engine_in_round = PLAYER_TURN)
    by (vm_compute; reflexivity).
  split; [exact Hr|]. split; [exact Hs|].
  destruct (X16_stand_result engine_in_round Hr Hs) as (g' & E & [_ H26] & _ & Hk & _).
  exists g'. auto.
Defined.

(** ** Bankroll *)

Lemma step_never_pays (o : op) (g : t) :
  player_bet g = 0 -> 0 <= min_bet g ->
  player_bet (step o g) = 0 /\ bankroll (step o g) <= bankroll g.
Proof.
  intros Hb Hm.
  destruct (step_facts o g) as (_ & _ & Hmove & _).
  destruct Hmove as [[Hk' Hb']|[(a & _ & Ha & Hk' & Hb')|(_ & Hb' & Hk')]].
  - split; [destruct Hb'; congruence|lia].
  - split; [exact Hb'|lia].
  - split; [congruence|]. rewrite Hb in Hk'. destruct Hk'; lia.
Qed.

Lemma run_never_pays (ops : list op) (g : t) :
  player_bet g = 0 -> 0 <= min_bet g ->
  player_bet (run ops g) = 0 /\ bankroll (run ops g) <= bankroll g.
Proof.
  intros Hb Hm. induction ops as [|o ops IH] using rev_ind.
  - split; [exact Hb|reflexivity].
  - rewrite run_snoc. destruct IH as [IHb IHk].
    destruct (same_config_run ops g) as (Hmin & _).
    destruct (step_never_pays o (run ops g) IHb) as [Hb' Hk']; [lia|].
    split; [exact Hb'|lia].
Qed.

(** X17: in an engine built with [min_bet >= 0] the bankroll never goes
    up: after any run of public operations it is at most what it was at
    the start.  Each accepted bet takes the wager out and no settlement,
    won or tied, puts anything back. *)
Theorem X17_bankroll_never_rises
    (n lo hi : Z) (r : Deck.Rng) (b : Z) (ops : list op) :
  0 <= lo ->
  bankroll (run ops (set_player (Player.init "Player"%string b) (init n lo hi r)))
  <= b.
Proof.
  intros Hlo.
  apply (run_never_pays ops (set_player (Player.init "Player"%string b)
                                        (init n lo hi r)));
    [reflexivity|exact Hlo].
Qed.

Lemma X17_bankroll_never_rises_witness :
  0 <= 10
  /\ bankroll (run [PlaceBet 100; Stand; StartNewRound; PlaceBet 50; Hit]
                   engine_one_deck) <= 1000.
Proof.
  assert (Hlo : 0 <= 10) by lia.
  split; [exact Hlo|].
  exact (X17_bankroll_never_rises 1 10 500 tape_count 1000
           [PlaceBet 100; Stand; StartNewRound; PlaceBet 50; Hit] Hlo).
Defined.

(** ** Guards *)

Lemma step_not_accepted (o : op) (g : t) :
  accepts o (game_state g) = false -> step o g = g.
Proof.
  intros H. destruct o as [amount| | | |]; simpl in *.
  - rewrite place_bet_rejected; [reflexivity|].
    left. now apply GameState_eqb_neq.
  - rewrite hit_rejected; [reflexivity|]. now apply GameState_eqb_neq.
  - rewrite stand_rejected; [reflexivity|]. now apply GameState_eqb_neq.
  - rewrite start_new_round_spec. simpl. now rewrite H.
  - reflexivity.
Qed.

(** X18: an operation called in a state that does not accept it is a
    no-op on the whole engine: a bet outside BETTING, a hit or a stand
    outside PLAYER_TURN, a new round outside ROUND_OVER; reading the game
    info is one in every state. *)
Theorem X18_call_out_of_turn_is_noop (o : op) (g : t) :
  accepts o (game_state g) = false -> step o g = g.
Proof. apply step_not_accepted. Qed.

Lemma X18_call_out_of_turn_is_noop_witness :
  accepts StartNewRound (game_state engine_natural) = false
  /\ step StartNewRound engine_natural = engine_natural.
Proof.
  assert (H : accepts StartNewRound (game_state engine_natural) = false)
    by reflexivity.
  split; [exact H|].
  exact (X18_call_out_of_turn_is_noop StartNewRound engine_natural H).
Defined.

(** ** Display *)

Lemma card_str_injective (c c' : Card.t) : Card.str c = Card.str c' -> c = c'.
Proof.
  destruct c as [s r], c' as [s' r'].
  destruct s, r; destruct s', r'; intros H; try reflexivity;
    vm_compute in H; discriminate H.
Qed.

(** X19: the display string of a card tells the card: two cards with the
    same string have the same suit and rank. *)
Theorem X19_card_string_tells_card (c c' : Card.t) :
  Card.str c = Card.str c' -> c = c'.
Proof. apply card_str_injective. Qed.

Lemma X19_card_string_tells_card_witness :
  Card.str (Card.mk Hearts Ten) = Card.str (Card.mk Hearts Ten)
  /\ Card.mk Hearts Ten = Card.mk Hearts Ten.
Proof.
  assert (H : Card.str (Card.mk Hearts Ten) = Card.str (Card.mk Hearts Ten))
    by reflexivity.
  split; [exact H|].
  exact (X19_card_string_tells_card _ _ H).
Defined.
